(** * Viagens client: token decoding, role derivation and the list/form controller

    A shallow embedding of the [ViagensApp] component and of its two helper
    functions, [decodeJwtPayload] and [extractRolesFromSource].

    JavaScript strings are sequences of UTF-16 code units, written here as
    lists of integers in [0, 65535].  The platform functions the component
    calls ([atob], [decodeURIComponent], [JSON.parse], [String.prototype.trim],
    [Set]) are modelled from their standards (WHATWG Infra and HTML, ECMA-262);
    the component itself is transcribed from its source. *)

From Stdlib Require Import ZArith List Bool Lia Ascii String.
From Stdlib Require Import Floats.SpecFloat.
Import ListNotations.

Local Open Scope Z_scope.
Set Warnings "-register-all".

Ltac Zify.zify_post_hook ::= Z.div_mod_to_equations.

(* ===================================================================== *)
(** ** JavaScript strings *)
(* ===================================================================== *)

Module JsString.

(** A string value: its UTF-16 code units. *)
Definition jstring := list Z.

(** An ASCII literal of the source, as code units. *)
Definition js (s : string) : jstring :=
  List.map (fun a => Z.of_N (N_of_ascii a)) (list_ascii_of_string s).

(** The same, with every apostrophe of the literal standing for a double
    quote (to write JSON text). *)
Definition jsq (s : string) : jstring :=
  List.map (fun c => if c =? 39 then 34 else c) (js s).

Fixpoint jstring_eqb (a b : jstring) : bool :=
  match a, b with
  | [], [] => true
  | x :: a', y :: b' => (x =? y) && jstring_eqb a' b'
  | _, _ => false
  end.

(** [!s] for a string [s]: only the empty string is falsy. *)
Definition str_falsy (s : jstring) : bool :=
  match s with [] => true | _ => false end.

(** [s.split(sep)] for a one-character separator.  The result always has at
    least one segment; the empty string splits into one empty segment. *)
Fixpoint split (sep : Z) (s : jstring) : list jstring :=
  match s with
  | [] => [[]]
  | c :: r =>
      if c =? sep then [] :: split sep r
      else match split sep r with
           | seg :: segs => (c :: seg) :: segs
           | [] => [[c]]
           end
  end.

(** [s.replace(/x/g, y)] for single characters [x] and [y]. *)
Definition replace_all (x y : Z) (s : jstring) : jstring :=
  List.map (fun c => if c =? x then y else c) s.

(** ECMA-262 WhiteSpace and LineTerminator code points, the characters
    [String.prototype.trim] removes. *)
Definition is_js_space (c : Z) : bool :=
  ((9 <=? c) && (c <=? 13)) || (c =? 32) || (c =? 160) || (c =? 5760)
  || ((8192 <=? c) && (c <=? 8202)) || (c =? 8232) || (c =? 8233)
  || (c =? 8239) || (c =? 8287) || (c =? 12288) || (c =? 65279).

Fixpoint trim_start (s : jstring) : jstring :=
  match s with
  | c :: r => if is_js_space c then trim_start r else s
  | [] => []
  end.

Definition trim_end (s : jstring) : jstring := rev (trim_start (rev s)).

(** [s.trim()]. *)
Definition trim (s : jstring) : jstring := trim_end (trim_start s).

(** Decimal digits of a natural number, most significant first
    ([Number.prototype.toString] on a non-negative integer below 10^21). *)
Fixpoint decimal_pos (fuel : nat) (n : Z) (acc : jstring) : jstring :=
  match fuel with
  | O => acc
  | S f =>
      let acc' := (48 + n mod 10) :: acc in
      if n <? 10 then acc' else decimal_pos f (n / 10) acc'
  end.

Definition decimal (n : Z) : jstring :=
  decimal_pos (S (Z.to_nat (Z.log2 n))) n [].

(** [hay.includes(needle)]. *)
Fixpoint starts_with (needle hay : jstring) : bool :=
  match needle, hay with
  | [], _ => true
  | x :: n', y :: h' => (x =? y) && starts_with n' h'
  | _ :: _, [] => false
  end.

Fixpoint includes (needle hay : jstring) : bool :=
  starts_with needle hay ||
  match hay with
  | [] => false
  | _ :: h' => includes needle h'
  end.

End JsString.
Import JsString.

(* ===================================================================== *)
(** ** Base64: [atob] and the base64url alphabet *)
(* ===================================================================== *)

Module Base64.

(** ASCII whitespace of the Infra standard: TAB, LF, FF, CR, SPACE. *)
Definition is_ascii_whitespace (c : Z) : bool :=
  (c =? 9) || (c =? 10) || (c =? 12) || (c =? 13) || (c =? 32).

(** Value of a character of the standard base64 alphabet. *)
Definition sextet_of_char (c : Z) : option Z :=
  if (65 <=? c) && (c <=? 90) then Some (c - 65)
  else if (97 <=? c) && (c <=? 122) then Some (c - 71)
  else if (48 <=? c) && (c <=? 57) then Some (c + 4)
  else if c =? 43 then Some 62
  else if c =? 47 then Some 63
  else None.

Fixpoint sextets (s : jstring) : option (list Z) :=
  match s with
  | [] => Some []
  | c :: r =>
      match sextet_of_char c, sextets r with
      | Some v, Some vs => Some (v :: vs)
      | _, _ => None
      end
  end.

(** Forgiving-base64 decode, step 5 onwards: 24-bit groups give three bytes;
    a final 18-bit group gives two, a final 12-bit group one. *)
Fixpoint bytes_of_sextets (l : list Z) : list Z :=
  match l with
  | a :: b :: c :: d :: r =>
      let n := a * 262144 + b * 4096 + c * 64 + d in
      n / 65536 :: (n / 256) mod 256 :: n mod 256 :: bytes_of_sextets r
  | [a; b; c] =>
      let n := (a * 4096 + b * 64 + c) / 4 in
      [n / 256; n mod 256]
  | [a; b] => [(a * 64 + b) / 16]
  | _ => []
  end.

(** Removal of one or two trailing [=]. *)
Definition strip_padding (s : jstring) : jstring :=
  match rev s with
  | 61 :: 61 :: r => rev r
  | 61 :: r => rev r
  | _ => s
  end.

(** [atob(s)]: [None] stands for the InvalidCharacterError exception.  The
    result is a binary string, one code unit in [0, 255] per byte. *)
Definition atob (s : jstring) : option jstring :=
  let d := filter (fun c => negb (is_ascii_whitespace c)) s in
  let d := if Z.of_nat (List.length d) mod 4 =? 0 then strip_padding d else d in
  if Z.of_nat (List.length d) mod 4 =? 1 then None
  else match sextets d with
       | Some vs => Some (bytes_of_sextets vs)
       | None => None
       end.

(** The base64url alphabet of RFC 4648, section 5. *)
Definition b64url_char (v : Z) : Z :=
  if v <? 26 then v + 65
  else if v <? 52 then v + 71
  else if v <? 62 then v - 4
  else if v =? 62 then 45
  else 95.

(** Base64url encoding of a byte sequence, with or without [=] padding. *)
Fixpoint b64url_encode (pad : bool) (bs : list Z) : jstring :=
  match bs with
  | x :: y :: z :: r =>
      b64url_char (x / 4) :: b64url_char ((x mod 4) * 16 + y / 16)
      :: b64url_char ((y mod 16) * 4 + z / 64) :: b64url_char (z mod 64)
      :: b64url_encode pad r
  | [x; y] =>
      [b64url_char (x / 4); b64url_char ((x mod 4) * 16 + y / 16);
       b64url_char ((y mod 16) * 4)] ++ (if pad then [61] else [])
  | [x] =>
      [b64url_char (x / 4); b64url_char ((x mod 4) * 16)]
      ++ (if pad then [61; 61] else [])
  | [] => []
  end.

Definition is_byte (b : Z) : Prop := 0 <= b < 256.

End Base64.
Import Base64.

(* ===================================================================== *)
(** ** Percent-encoding and [decodeURIComponent] *)
(* ===================================================================== *)

Module Uri.

Definition hex_digit (v : Z) : Z := if v <? 10 then 48 + v else 87 + v.

(** [n.toString(16)] for a code unit [n] (so [0 <= n < 65536]): lower-case
    hexadecimal without leading zeros. *)
Definition toString16 (n : Z) : jstring :=
  if n <? 16 then [hex_digit n]
  else if n <? 256 then [hex_digit (n / 16); hex_digit (n mod 16)]
  else if n <? 4096 then
    [hex_digit (n / 256); hex_digit ((n / 16) mod 16); hex_digit (n mod 16)]
  else [hex_digit (n / 4096); hex_digit ((n / 256) mod 16);
        hex_digit ((n / 16) mod 16); hex_digit (n mod 16)].

(** [s.padStart(2, "0")]. *)
Definition padStart2 (s : jstring) : jstring :=
  match s with
  | [] => [48; 48]
  | [c] => [48; c]
  | _ => s
  end.

(** The callback of the [map] in [decodeJwtPayload]:
    [(char) => `%${char.charCodeAt(0).toString(16).padStart(2, "0")}`]. *)
Definition percent (c : Z) : jstring := 37 :: padStart2 (toString16 c).

Definition hex_value (c : Z) : option Z :=
  if (48 <=? c) && (c <=? 57) then Some (c - 48)
  else if (65 <=? c) && (c <=? 70) then Some (c - 55)
  else if (97 <=? c) && (c <=? 102) then Some (c - 87)
  else None.

(** A URI component read left to right: an escape sequence [%XX] gives an
    octet, any other code unit stands for itself. *)
Inductive uri_item : Type :=
| Lit (c : Z)
| Oct (b : Z).

Fixpoint uri_items (s : jstring) : option (list uri_item) :=
  match s with
  | [] => Some []
  | c :: r =>
      if c =? 37 then
        match r with
        | h :: l :: r' =>
            match hex_value h, hex_value l, uri_items r' with
            | Some x, Some y, Some t => Some (Oct (16 * x + y) :: t)
            | _, _, _ => None
            end
        | _ => None
        end
      else
        match uri_items r with
        | Some t => Some (Lit c :: t)
        | None => None
        end
  end.

(** UTF-16 encoding of a code point. *)
Definition utf16 (cp : Z) : jstring :=
  if cp <? 65536 then [cp]
  else [55296 + (cp - 65536) / 1024; 56320 + (cp - 65536) mod 1024].

Definition is_continuation (b : Z) : bool := (128 <=? b) && (b <? 192).

(** The Decode operation of ECMA-262 with an empty reserved set: the octets
    must form valid UTF-8 (no overlong form, no surrogate, at most U+10FFFF)
    and every continuation octet must itself be an escape sequence. *)
Fixpoint decode_items (l : list uri_item) : option jstring :=
  match l with
  | [] => Some []
  | Lit c :: r =>
      match decode_items r with Some t => Some (c :: t) | None => None end
  | Oct b :: r =>
      if b <? 128 then
        match decode_items r with Some t => Some (b :: t) | None => None end
      else if b <? 192 then None
      else if b <? 224 then
        match r with
        | Oct b1 :: r1 =>
            let cp := (b - 192) * 64 + (b1 - 128) in
            if is_continuation b1 && (128 <=? cp) then
              match decode_items r1 with
              | Some t => Some (utf16 cp ++ t)
              | None => None
              end
            else None
        | _ => None
        end
      else if b <? 240 then
        match r with
        | Oct b1 :: Oct b2 :: r2 =>
            let cp := (b - 224) * 4096 + (b1 - 128) * 64 + (b2 - 128) in
            if is_continuation b1 && is_continuation b2 && (2048 <=? cp)
               && negb ((55296 <=? cp) && (cp <=? 57343)) then
              match decode_items r2 with
              | Some t => Some (utf16 cp ++ t)
              | None => None
              end
            else None
        | _ => None
        end
      else if b <? 248 then
        match r with
        | Oct b1 :: Oct b2 :: Oct b3 :: r3 =>
            let cp := (b - 240) * 262144 + (b1 - 128) * 4096
                      + (b2 - 128) * 64 + (b3 - 128) in
            if is_continuation b1 && is_continuation b2 && is_continuation b3
               && (65536 <=? cp) && (cp <=? 1114111) then
              match decode_items r3 with
              | Some t => Some (utf16 cp ++ t)
              | None => None
              end
            else None
        | _ => None
        end
      else None
  end.

(** [decodeURIComponent(s)]: [None] stands for the URIError exception. *)
Definition decodeURIComponent (s : jstring) : option jstring :=
  match uri_items s with
  | Some items => decode_items items
  | None => None
  end.

(** A Unicode scalar value: a code point that is not a surrogate. *)
Definition is_scalar (cp : Z) : Prop :=
  0 <= cp < 55296 \/ 57344 <= cp <= 1114111.

(** UTF-8 encoding of a scalar value (RFC 3629). *)
Definition utf8_encode1 (cp : Z) : list Z :=
  if cp <? 128 then [cp]
  else if cp <? 2048 then [192 + cp / 64; 128 + cp mod 64]
  else if cp <? 65536 then
    [224 + cp / 4096; 128 + (cp / 64) mod 64; 128 + cp mod 64]
  else [240 + cp / 262144; 128 + (cp / 4096) mod 64;
        128 + (cp / 64) mod 64; 128 + cp mod 64].

Definition utf8_encode (text : list Z) : list Z := flat_map utf8_encode1 text.

(** The UTF-16 string of a text given as scalar values. *)
Definition utf16_encode (text : list Z) : jstring := flat_map utf16 text.

End Uri.
Import Uri.

(* ===================================================================== *)
(** ** JavaScript values *)
(* ===================================================================== *)

Module Js.

(** Numbers are IEEE 754 binary64 values. *)
Definition prec : Z := 53.
Definition emax : Z := 1024.

Definition number_of_Z (z : Z) : spec_float := binary_normalize prec emax z 0 false.

(** The values the component handles.  Arrays and objects carry the identity
    of the heap object ([ref]): two of them are the same value only when they
    are the same object, whatever they contain.  Arrays have no holes and
    objects list their own data properties, one entry per key; this is what
    [JSON.parse] builds. *)
Inductive value : Type :=
| VUndefined
| VNull
| VBool (b : bool)
| VNum (x : spec_float)
| VStr (s : jstring)
| VArr (ref : nat) (elems : list value)
| VObj (ref : nat) (props : list (jstring * value)).

(** ToBoolean. *)
Definition truthy (v : value) : bool :=
  match v with
  | VUndefined | VNull => false
  | VBool b => b
  | VNum (S754_zero _) | VNum S754_nan => false
  | VNum _ => true
  | VStr s => negb (str_falsy s)
  | VArr _ _ | VObj _ _ => true
  end.

Definition is_nullish (v : value) : bool :=
  match v with VUndefined | VNull => true | _ => false end.

(** [Array.isArray(v)]. *)
Definition isArray (v : value) : bool :=
  match v with VArr _ _ => true | _ => false end.

(** The elements an array contributes when it is spread or flattened. *)
Definition elements (v : value) : list value :=
  match v with VArr _ es => es | _ => [] end.

Fixpoint lookup (props : list (jstring * value)) (key : jstring) : option value :=
  match props with
  | [] => None
  | (k, v) :: r => if jstring_eqb k key then Some v else lookup r key
  end.

(** Definition of an own data property: an existing key keeps its place and
    takes the new value. *)
Fixpoint set_prop (props : list (jstring * value)) (key : jstring) (v : value)
  : list (jstring * value) :=
  match props with
  | [] => [(key, v)]
  | (k, w) :: r =>
      if jstring_eqb k key then (k, v) :: r else (k, w) :: set_prop r key v
  end.

Definition is_digit (c : Z) : bool := (48 <=? c) && (c <=? 57).

Definition digits_value (ds : jstring) : Z :=
  fold_left (fun acc c => 10 * acc + (c - 48)) ds 0.

(** A property key that is a canonical array index: decimal digits without
    a leading zero, below 2^32 - 1. *)
Definition array_index (key : jstring) : option nat :=
  match key with
  | [] => None
  | c :: r =>
      if forallb is_digit key && ((negb (c =? 48)) || str_falsy r)
         && (digits_value key <? 4294967295)
      then Some (Z.to_nat (digits_value key))
      else None
  end.

Definition key_length : jstring := js "length".

(** The exceptions raised by the operations modelled here. *)
Inductive exn : Type :=
| InvalidCharacterError
| URIError
| SyntaxError
| TypeError.

(** The completion of an evaluation: a value, or a thrown exception. *)
Inductive completion (A : Type) : Type :=
| Normal (a : A)
| Throw (e : exn).
Arguments Normal {A} a.
Arguments Throw {A} e.

Definition bind {A B} (c : completion A) (k : A -> completion B) : completion B :=
  match c with
  | Normal a => k a
  | Throw e => Throw e
  end.

Definition or_throw {A} (e : exn) (o : option A) : completion A :=
  match o with
  | Some a => Normal a
  | None => Throw e
  end.

(** [v[key]].  Reading a property of [undefined] or [null] throws a
    TypeError.  Own properties, array elements, string characters and
    [length] are read as such; every other key reads as [undefined]: the
    members inherited from the built-in prototypes are outside this model
    (none of them is an array with elements). *)
Definition getProp (v : value) (key : jstring) : completion value :=
  match v with
  | VUndefined | VNull => Throw TypeError
  | VObj _ props =>
      Normal (match lookup props key with Some w => w | None => VUndefined end)
  | VArr _ es =>
      match array_index key with
      | Some i => Normal (nth i es VUndefined)
      | None =>
          Normal (if jstring_eqb key key_length
                  then VNum (number_of_Z (Z.of_nat (List.length es)))
                  else VUndefined)
      end
  | VStr s =>
      match array_index key with
      | Some i =>
          Normal (match nth_error s i with Some c => VStr [c] | None => VUndefined end)
      | None =>
          Normal (if jstring_eqb key key_length
                  then VNum (number_of_Z (Z.of_nat (List.length s)))
                  else VUndefined)
      end
  | VBool _ | VNum _ => Normal VUndefined
  end.

(** SameValueZero, the equality of [Set]: NaN equals NaN, the two zeros are
    equal, objects are compared by identity. *)
Definition sameValueZero (a b : value) : bool :=
  match a, b with
  | VUndefined, VUndefined => true
  | VNull, VNull => true
  | VBool x, VBool y => Bool.eqb x y
  | VNum S754_nan, VNum S754_nan => true
  | VNum x, VNum y => SFeqb x y
  | VStr s, VStr t => jstring_eqb s t
  | VArr r _, VArr r' _ => Nat.eqb r r'
  | VObj r _, VObj r' _ => Nat.eqb r r'
  | _, _ => false
  end.

(** Strict equality ([===]): as SameValueZero, but NaN differs from itself. *)
Definition strictEquals (a b : value) : bool :=
  match a, b with
  | VNum x, VNum y => SFeqb x y
  | _, _ => sameValueZero a b
  end.

(** A [Set]: its elements in insertion order, no two of them equal under
    SameValueZero. *)
Definition jsset := list value.

Definition Set_has (s : jsset) (x : value) : bool := existsb (sameValueZero x) s.

(** [s.add(x)]; a negative zero is stored as the positive zero. *)
Definition Set_add (s : jsset) (x : value) : jsset :=
  if Set_has s x then s
  else s ++ [match x with VNum (S754_zero _) => VNum (S754_zero false) | _ => x end].

(** [new Set(iterable)]. *)
Definition Set_new (l : list value) : jsset := fold_left Set_add l [].

End Js.
Import Js.

Notation "x <- c ;; k" := (bind c (fun x => k))
  (at level 61, c at next level, right associativity).

(* ===================================================================== *)
(** ** [JSON.parse] *)
(* ===================================================================== *)

Module Json.

Inductive jtoken : Type :=
| TLBrace | TRBrace | TLBracket | TRBracket | TColon | TComma
| TString (s : jstring)
| TNumber (x : spec_float)
| TTrue | TFalse | TNull.

(** *** Numbers *)

Fixpoint span_digits (s : jstring) : jstring * jstring :=
  match s with
  | c :: r =>
      if is_digit c then let '(ds, rest) := span_digits r in (c :: ds, rest)
      else ([], s)
  | [] => ([], [])
  end.

(** The binary64 value nearest to [m * 10^e] (ties to even). *)
Definition decimal_to_number (neg : bool) (m e : Z) : spec_float :=
  match m with
  | Zpos p =>
      if 0 <=? e then binary_round prec emax neg (p * Z.to_pos (10 ^ e)) 0
      else SFdiv prec emax (S754_finite neg p 0)
                           (S754_finite false (Z.to_pos (10 ^ (- e))) 0)
  | _ => S754_zero neg
  end.

(** A JSON number: an optional minus sign; an integer part, either 0 or
    digits that do not start with 0; an optional fraction, a point and at
    least one digit; an optional exponent, e or E, an optional sign and at
    least one digit. *)
Definition number_of_lexeme (s : jstring) : option spec_float :=
  let '(neg, s1) := match s with 45 :: r => (true, r) | _ => (false, s) end in
  let '(int, s2) := span_digits s1 in
  match int with
  | [] => None
  | d :: more =>
      if (d =? 48) && negb (str_falsy more) then None
      else
        let frac_rest :=
          match s2 with
          | 46 :: r =>
              let '(fr, s3) := span_digits r in
              if str_falsy fr then None else Some (fr, s3)
          | _ => Some ([], s2)
          end in
        match frac_rest with
        | None => None
        | Some (fr, s3) =>
            let exp_rest :=
              match s3 with
              | [] => Some 0
              | c :: r =>
                  if (c =? 101) || (c =? 69) then
                    let '(eneg, r1) :=
                      match r with
                      | 45 :: r' => (true, r')
                      | 43 :: r' => (false, r')
                      | _ => (false, r)
                      end in
                    let '(ex, r2) := span_digits r1 in
                    if str_falsy ex || negb (str_falsy r2) then None
                    else Some (if eneg then - digits_value ex else digits_value ex)
                  else None
              end in
            match exp_rest with
            | None => None
            | Some ex =>
                Some (decimal_to_number neg (digits_value (int ++ fr))
                        (ex - Z.of_nat (List.length fr)))
            end
        end
  end.

(** *** Lexer: one code unit at a time *)

Inductive lex_mode : Type :=
| LIdle
| LStr (acc : jstring)                     (* inside a string, characters reversed *)
| LEsc (acc : jstring)                     (* after a backslash *)
| LHex (acc : jstring) (k : nat) (v : Z)   (* [S k] hex digits of \u still to read *)
| LNum (acc : jstring)                     (* inside a number, characters reversed *)
| LWord (rest : jstring) (t : jtoken).      (* inside true, false or null *)

Definition is_json_space (c : Z) : bool :=
  (c =? 32) || (c =? 9) || (c =? 10) || (c =? 13).

Definition is_number_char (c : Z) : bool :=
  is_digit c || (c =? 45) || (c =? 43) || (c =? 46) || (c =? 101) || (c =? 69).

Definition lex_idle (c : Z) : option (lex_mode * list jtoken) :=
  if is_json_space c then Some (LIdle, [])
  else if c =? 123 then Some (LIdle, [TLBrace])
  else if c =? 125 then Some (LIdle, [TRBrace])
  else if c =? 91 then Some (LIdle, [TLBracket])
  else if c =? 93 then Some (LIdle, [TRBracket])
  else if c =? 58 then Some (LIdle, [TColon])
  else if c =? 44 then Some (LIdle, [TComma])
  else if c =? 34 then Some (LStr [], [])
  else if (c =? 45) || is_digit c then Some (LNum [c], [])
  else if c =? 116 then Some (LWord (js "rue") TTrue, [])
  else if c =? 102 then Some (LWord (js "alse") TFalse, [])
  else if c =? 110 then Some (LWord (js "ull") TNull, [])
  else None.

Definition unescape (c : Z) : option Z :=
  if (c =? 34) || (c =? 92) || (c =? 47) then Some c
  else if c =? 98 then Some 8
  else if c =? 102 then Some 12
  else if c =? 110 then Some 10
  else if c =? 114 then Some 13
  else if c =? 116 then Some 9
  else None.

Definition lex_step (m : lex_mode) (c : Z) : option (lex_mode * list jtoken) :=
  match m with
  | LIdle => lex_idle c
  | LStr acc =>
      if c =? 34 then Some (LIdle, [TString (rev acc)])
      else if c =? 92 then Some (LEsc acc, [])
      else if c <? 32 then None
      else Some (LStr (c :: acc), [])
  | LEsc acc =>
      if c =? 117 then Some (LHex acc 3 0, [])
      else match unescape c with
           | Some d => Some (LStr (d :: acc), [])
           | None => None
           end
  | LHex acc k v =>
      match hex_value c with
      | Some h =>
          match k with
          | O => Some (LStr ((16 * v + h) :: acc), [])
          | S k' => Some (LHex acc k' (16 * v + h), [])
          end
      | None => None
      end
  | LNum acc =>
      if is_number_char c then Some (LNum (c :: acc), [])
      else match number_of_lexeme (rev acc), lex_idle c with
           | Some x, Some (m', ts) => Some (m', TNumber x :: ts)
           | _, _ => None
           end
  | LWord rest t =>
      match rest with
      | [] => None
      | [d] => if c =? d then Some (LIdle, [t]) else None
      | d :: rest' => if c =? d then Some (LWord rest' t, []) else None
      end
  end.

Fixpoint lex (m : lex_mode) (s : jstring) : option (list jtoken) :=
  match s with
  | [] =>
      match m with
      | LIdle => Some []
      | LNum acc =>
          match number_of_lexeme (rev acc) with
          | Some x => Some [TNumber x]
          | None => None
          end
      | _ => None
      end
  | c :: r =>
      match lex_step m c with
      | Some (m', ts) =>
          match lex m' r with
          | Some more => Some (ts ++ more)
          | None => None
          end
      | None => None
      end
  end.

(** *** Parser: one token at a time, with the stack of open containers *)

Inductive frame : Type :=
| FArr (ref : nat) (acc : list value)                       (* elements reversed *)
| FObj (ref : nat) (props : list (jstring * value))
| FObjV (ref : nat) (props : list (jstring * value)) (key : jstring).

Inductive expect : Type :=
| PValue (first : bool)    (* a value; directly after [[], also a closing bracket *)
| PKey (first : bool)      (* a key; directly after [{], also a closing brace *)
| PColon (key : jstring)
| PAfter                   (* a comma or the end of the open container *)
| PDone (v : value).

Definition pstate : Type := list frame * nat * expect.

(** A complete value goes to the innermost open container. *)
Definition deliver (v : value) (stk : list frame) (n : nat) : option pstate :=
  match stk with
  | [] => Some ([], n, PDone v)
  | FArr r acc :: t => Some (FArr r (v :: acc) :: t, n, PAfter)
  | FObjV r props k :: t => Some (FObj r (set_prop props k v) :: t, n, PAfter)
  | FObj _ _ :: _ => None
  end.

Definition parse_step (st : pstate) (t : jtoken) : option pstate :=
  let '(stk, n, e) := st in
  match e with
  | PValue first =>
      match t with
      | TString s => deliver (VStr s) stk n
      | TNumber x => deliver (VNum x) stk n
      | TTrue => deliver (VBool true) stk n
      | TFalse => deliver (VBool false) stk n
      | TNull => deliver VNull stk n
      | TLBracket => Some (FArr n [] :: stk, S n, PValue true)
      | TLBrace => Some (FObj n [] :: stk, S n, PKey true)
      | TRBracket =>
          match first, stk with
          | true, FArr r acc :: rest => deliver (VArr r (rev acc)) rest n
          | _, _ => None
          end
      | _ => None
      end
  | PKey first =>
      match t with
      | TString k => Some (stk, n, PColon k)
      | TRBrace =>
          match first, stk with
          | true, FObj r props :: rest => deliver (VObj r props) rest n
          | _, _ => None
          end
      | _ => None
      end
  | PColon k =>
      match t, stk with
      | TColon, FObj r props :: rest => Some (FObjV r props k :: rest, n, PValue false)
      | _, _ => None
      end
  | PAfter =>
      match t, stk with
      | TComma, FArr _ _ :: _ => Some (stk, n, PValue false)
      | TComma, FObj _ _ :: _ => Some (stk, n, PKey false)
      | TRBracket, FArr r acc :: rest => deliver (VArr r (rev acc)) rest n
      | TRBrace, FObj r props :: rest => deliver (VObj r props) rest n
      | _, _ => None
      end
  | PDone _ => None
  end.

Fixpoint parse_tokens (st : pstate) (ts : list jtoken) : option value :=
  match ts with
  | [] => match st with (_, _, PDone v) => Some v | _ => None end
  | t :: r =>
      match parse_step st t with
      | Some st' => parse_tokens st' r
      | None => None
      end
  end.

(** [JSON.parse(s)] without reviver: [None] stands for the SyntaxError
    exception.  The objects and arrays created take the references
    [fresh], [fresh + 1], ... in the order of their opening brackets. *)
Definition JSON_parse (fresh : nat) (s : jstring) : option value :=
  match lex LIdle s with
  | Some ts => parse_tokens ([], fresh, PValue false) ts
  | None => None
  end.

End Json.
Import Json.

(** *** [JSON.stringify] of strings *)

Definition unicode_escape (c : Z) : jstring :=
  [92; 117; hex_digit (c / 4096); hex_digit ((c / 256) mod 16);
   hex_digit ((c / 16) mod 16); hex_digit (c mod 16)].

Definition is_high_surrogate (c : Z) : bool := (55296 <=? c) && (c <=? 56319).
Definition is_low_surrogate (c : Z) : bool := (56320 <=? c) && (c <=? 57343).

Definition quote_unit (c : Z) : jstring :=
  if c =? 8 then [92; 98]
  else if c =? 9 then [92; 116]
  else if c =? 10 then [92; 110]
  else if c =? 12 then [92; 102]
  else if c =? 13 then [92; 114]
  else if c =? 34 then [92; 34]
  else if c =? 92 then [92; 92]
  else if (c <? 32) || is_high_surrogate c || is_low_surrogate c
       then unicode_escape c
  else [c].

(** The characters of QuoteJSONString: a surrogate pair is copied, a lone
    surrogate is escaped. *)
Fixpoint quote_chars (s : jstring) : jstring :=
  match s with
  | [] => []
  | c :: r =>
      match r with
      | d :: r' =>
          if is_high_surrogate c && is_low_surrogate d
          then c :: d :: quote_chars r'
          else quote_unit c ++ quote_chars r
      | [] => quote_unit c
      end
  end.

Definition QuoteJSONString (s : jstring) : jstring :=
  34 :: quote_chars s ++ [34].

(* ===================================================================== *)
(** ** The two helper functions of the component *)
(* ===================================================================== *)

(** The build-time configuration, [import.meta.env]: a variable is a string
    or is not defined. *)
Record Env : Type := {
  VITE_API_BASE_URL : option jstring;
  VITE_AUTH0_ROLE_NAMESPACE : option jstring
}.

(** [a ?? b]. *)
Definition nullish_or {A} (a : option A) (b : A) : A :=
  match a with Some x => x | None => b end.

(** What [console.error] has printed: the message and the exception. *)
Inductive log_entry : Type :=
| ConsoleError (msg : jstring) (err : exn).

Definition console := list log_entry.

Section Config.

Variable env : Env.

Definition API_BASE_URL : jstring :=
  nullish_or (VITE_API_BASE_URL env) (js "http://56.124.107.104:8080").

Definition ROLE_NAMESPACE : jstring :=
  nullish_or (VITE_AUTH0_ROLE_NAMESPACE env)
             (js "https://dev-hb5tnbkuyk217lt2.us.auth0.com/roles").

Definition ROLE_CLAIM_KEYS : list jstring :=
  [ROLE_NAMESPACE; js "https://schemas.auth0.com/roles"; js "roles"].

Definition ADMIN_ROLE : jstring := js "admin".

(** The body of the [try] block of [decodeJwtPayload]. *)
Definition decodeJwtPayload_try (fresh : nat) (token : jstring) : completion value :=
  match nth_error (split 46 token) 1 with
  | None => Normal VNull
  | Some base64Payload =>
      if str_falsy base64Payload then Normal VNull
      else
        let normalized := replace_all 95 47 (replace_all 45 43 base64Payload) in
        payload <- or_throw InvalidCharacterError (atob normalized) ;;
        json <- or_throw URIError (decodeURIComponent (flat_map percent payload)) ;;
        or_throw SyntaxError (JSON_parse fresh json)
  end.

(** [decodeJwtPayload(token)]: the completion of the call and what it printed
    on the console.  [fresh] is the first free object reference of the heap. *)
Definition decodeJwtPayload (fresh : nat) (token : jstring) : completion value * console :=
  if str_falsy token then (Normal VNull, [])
  else
    match decodeJwtPayload_try fresh token with
    | Normal v => (Normal v, [])
    | Throw err =>
        (Normal VNull, [ConsoleError (js "Erro ao decodificar token JWT:") err])
    end.

(** [keys.flatMap(f)] for a callback that may throw. *)
Fixpoint flatMap {A} (f : A -> completion (list value)) (l : list A)
  : completion (list value) :=
  match l with
  | [] => Normal []
  | a :: r =>
      vs <- f a ;;
      ws <- flatMap f r ;;
      Normal (vs ++ ws)
  end.

(** [extractRolesFromSource(source)]. *)
Definition extractRolesFromSource (source : value) : completion (list value) :=
  if negb (truthy source) then Normal []
  else
    flatMap (fun key =>
               value <- getProp source key ;;
               Normal (if isArray value then elements value else []))
            ROLE_CLAIM_KEYS.

(** The [roles] memo of the component. *)
Definition roles (payload user : value) : completion jsset :=
  fromToken <- extractRolesFromSource payload ;;
  fromUser <- extractRolesFromSource user ;;
  Normal (Set_new (fromToken ++ fromUser)).

Definition isAdmin_of (rs : jsset) : bool := Set_has rs (VStr ADMIN_ROLE).

End Config.

(* ===================================================================== *)
(** ** The component: state, network, handlers, view *)
(* ===================================================================== *)

(** The [useState] cells of [ViagensApp]. *)
Record State : Type := mkState {
  viagens : list value;
  loading : bool;
  error : option jstring;          (* [None] is [null] *)
  submitting : bool;
  deletingId : value;
  token : jstring;
  origem : jstring;
  destino : jstring;
  descricao : jstring;
  modoTransporte : jstring
}.

Definition initialState : State := mkState [] false None false VNull [] [] [] [] [].

Definition setViagens (f : list value -> list value) (s : State) : State :=
  mkState (f (viagens s)) (loading s) (error s) (submitting s) (deletingId s)
          (token s) (origem s) (destino s) (descricao s) (modoTransporte s).
Definition setLoading (b : bool) (s : State) : State :=
  mkState (viagens s) b (error s) (submitting s) (deletingId s)
          (token s) (origem s) (destino s) (descricao s) (modoTransporte s).
Definition setError (e : option jstring) (s : State) : State :=
  mkState (viagens s) (loading s) e (submitting s) (deletingId s)
          (token s) (origem s) (destino s) (descricao s) (modoTransporte s).
Definition setSubmitting (b : bool) (s : State) : State :=
  mkState (viagens s) (loading s) (error s) b (deletingId s)
          (token s) (origem s) (destino s) (descricao s) (modoTransporte s).
Definition setDeletingId (v : value) (s : State) : State :=
  mkState (viagens s) (loading s) (error s) (submitting s) v
          (token s) (origem s) (destino s) (descricao s) (modoTransporte s).
Definition setToken (t : jstring) (s : State) : State :=
  mkState (viagens s) (loading s) (error s) (submitting s) (deletingId s)
          t (origem s) (destino s) (descricao s) (modoTransporte s).
Definition setOrigem (t : jstring) (s : State) : State :=
  mkState (viagens s) (loading s) (error s) (submitting s) (deletingId s)
          (token s) t (destino s) (descricao s) (modoTransporte s).
Definition setDestino (t : jstring) (s : State) : State :=
  mkState (viagens s) (loading s) (error s) (submitting s) (deletingId s)
          (token s) (origem s) t (descricao s) (modoTransporte s).
Definition setDescricao (t : jstring) (s : State) : State :=
  mkState (viagens s) (loading s) (error s) (submitting s) (deletingId s)
          (token s) (origem s) (destino s) t (modoTransporte s).
Definition setModoTransporte (t : jstring) (s : State) : State :=
  mkState (viagens s) (loading s) (error s) (submitting s) (deletingId s)
          (token s) (origem s) (destino s) (descricao s) t.

(** What [useAuth0] reports. *)
Record Auth : Type := {
  user : value;
  isAuthenticated : bool;
  isLoading : bool
}.

(** An exception caught in a handler: only its [message] is read. *)
Record JsError : Type := { message : jstring }.

(** The settlement of an awaited promise. *)
Inductive settled (A : Type) : Type :=
| Resolved (a : A)
| Rejected (err : JsError).
Arguments Resolved {A} a.
Arguments Rejected {A} err.

(** A response of [fetch]: its status and what reading the body as text or
    as JSON settles to. *)
Record Response : Type := {
  status : Z;
  text : settled jstring;
  json : settled value
}.

Definition ok (r : Response) : bool := (200 <=? status r) && (status r <=? 299).

(** The address of a request: a string, followed for a trip by the trip's
    identifier, which the template literal converts to a string. *)
Record Request : Type := {
  method : jstring;
  url : jstring;
  url_id : option value;
  authorization : jstring;
  content_type : option jstring;
  body : option jstring
}.

(** The object literal [dto] of [handleCreate]. *)
Record Dto : Type := {
  origemNome : jstring;
  destinoNome : jstring;
  dto_descricao : option jstring;   (* [None] is [null] *)
  dto_modoTransporte : jstring
}.

(** [JSON.stringify(dto)]. *)
Definition JSON_stringify_dto (d : Dto) : jstring :=
  jsq "{'origemNome':" ++ QuoteJSONString (origemNome d)
  ++ jsq ",'destinoNome':" ++ QuoteJSONString (destinoNome d)
  ++ jsq ",'descricao':"
  ++ match dto_descricao d with
     | Some t => QuoteJSONString t
     | None => js "null"
     end
  ++ jsq ",'modoTransporte':" ++ QuoteJSONString (dto_modoTransporte d)
  ++ js "}".

(** What a handler does that is visible outside the component state. *)
Inductive event : Type :=
| Requested (r : Request)
| Printed (msg : jstring) (err : JsError).

(** An asynchronous function of the component, as the tree of its steps.
    The state setters act on the state current when they run; the values a
    function closes over are fixed when the tree is built. *)
Inductive task : Type :=
| Return
| Update (f : State -> completion State) (k : task)
| Print (msg : jstring) (err : JsError) (k : task)
| AwaitToken (k : settled jstring -> task)       (* [await getAccessTokenSilently()] *)
| AwaitFetch (req : Request) (k : settled Response -> task)
| AwaitBody (k : task)                           (* [await res.text()], [await res.json()] *)
| ReadCancelled (k : bool -> task).              (* reads [cancelled] of the effect *)

Definition set (f : State -> State) (k : task) : task :=
  Update (fun s => Normal (f s)) k.

Definition validation_message : jstring :=
  js "Origem, destino e modo de transporte s" ++ [227] ++ js "o obrigat"
  ++ [243] ++ js "rios.".

Definition token_message : jstring :=
  js "N" ++ [227] ++ js "o foi poss" ++ [237]
  ++ js "vel recuperar o token de acesso.".

Section Component.

Variable env : Env.

(** [refreshToken()]; [k] receives the value the function returns. *)
Definition refreshToken (k : jstring -> task) : task :=
  AwaitToken (fun r =>
    match r with
    | Resolved accessToken => set (setToken accessToken) (k accessToken)
    | Rejected err =>
        Print (js "Erro ao buscar token:") err
          (set (setError (Some token_message)) (k []))
    end).

(** [fetchViagens(providedToken)], built in a render whose token state is
    [tok]; [providedToken = None] is a call without argument. *)
Definition fetchViagens (tok : jstring) (providedToken : option jstring) (k : task) : task :=
  let activeToken := nullish_or providedToken tok in
  if str_falsy activeToken then k
  else
    let catch (err : JsError) (fin : task) := set (setError (Some (message err))) fin in
    let finally := set (setLoading false) k in
    set (setLoading true)
      (set (setError None)
        (AwaitFetch
           {| method := js "GET";
              url := API_BASE_URL env ++ js "/viagens";
              url_id := None;
              authorization := js "Bearer " ++ activeToken;
              content_type := None;
              body := None |}
           (fun r =>
              match r with
              | Rejected err => catch err finally
              | Resolved res =>
                  if negb (ok res) then
                    catch {| message := js "Erro ao carregar: " ++ decimal (status res) |}
                          finally
                  else
                    AwaitBody
                      match json res with
                      | Rejected err => catch err finally
                      | Resolved data =>
                          set (setViagens (fun _ => if isArray data then elements data else []))
                              finally
                      end
              end))).

(** The effect of the component, run after a render with authentication
    status [authenticated] and token state [tok]. *)
Definition effect (authenticated : bool) (tok : jstring) : task :=
  if negb authenticated then
    set (setToken []) (set (setViagens (fun _ => [])) Return)
  else
    refreshToken (fun accessToken =>
      ReadCancelled (fun cancelled =>
        if negb cancelled && negb (str_falsy accessToken)
        then fetchViagens tok (Some accessToken) Return
        else Return)).

(** [handleCreate(e)], built in a render with state [st]. *)
Definition handleCreate (st : State) : task :=
  set (setError None)
    (if str_falsy (origem st) || str_falsy (destino st) || str_falsy (modoTransporte st)
     then set (setError (Some validation_message)) Return
     else
       let dto :=
         {| origemNome := trim (origem st);
            destinoNome := trim (destino st);
            dto_descricao :=
              (let t := trim (descricao st) in if str_falsy t then None else Some t);
            dto_modoTransporte := trim (modoTransporte st) |} in
       let catch (err : JsError) (fin : task) := set (setError (Some (message err))) fin in
       let finally := set (setSubmitting false) Return in
       set (setSubmitting true)
         (AwaitFetch
            {| method := js "POST";
               url := API_BASE_URL env ++ js "/viagens";
               url_id := None;
               authorization := js "Bearer " ++ token st;
               content_type := Some (js "application/json");
               body := Some (JSON_stringify_dto dto) |}
            (fun r =>
               match r with
               | Rejected err => catch err finally
               | Resolved res =>
                   if negb (ok res) then
                     AwaitBody
                       match text res with
                       | Rejected err => catch err finally
                       | Resolved t =>
                           catch {| message := js "Erro ao criar: " ++ decimal (status res)
                                               ++ js " " ++ t |}
                                 finally
                       end
                   else
                     AwaitBody
                       match json res with
                       | Rejected err => catch err finally
                       | Resolved created =>
                           set (setViagens (fun prev => created :: prev))
                             (set (setOrigem [])
                               (set (setDestino [])
                                 (set (setDescricao [])
                                   (set (setModoTransporte []) finally))))
                       end
               end))).

(** The updater of [handleDelete]:
    [(prev) => prev.filter((viagem) => viagem.id !== id)]. *)
Fixpoint without_id (id : value) (prev : list value) : completion (list value) :=
  match prev with
  | [] => Normal []
  | viagem :: r =>
      vid <- getProp viagem (js "id") ;;
      rest <- without_id id r ;;
      Normal (if negb (strictEquals vid id) then viagem :: rest else rest)
  end.

(** [handleDelete(id)], built in a render with token state [tok] in which
    [isAdmin] had the value [isAdmin]. *)
Definition handleDelete (isAdmin : bool) (tok : jstring) (id : value) : task :=
  if negb isAdmin then Return
  else
    let catch (err : JsError) (fin : task) := set (setError (Some (message err))) fin in
    let finally := set (setDeletingId VNull) Return in
    set (setError None)
      (set (setDeletingId id)
        (AwaitFetch
           {| method := js "DELETE";
              url := API_BASE_URL env ++ js "/viagens/";
              url_id := Some id;
              authorization := js "Bearer " ++ tok;
              content_type := None;
              body := None |}
           (fun r =>
              match r with
              | Rejected err => catch err finally
              | Resolved res =>
                  if negb (ok res) then
                    AwaitBody
                      match text res with
                      | Rejected err => catch err finally
                      | Resolved t =>
                          catch {| message := js "Erro ao excluir: " ++ decimal (status res)
                                              ++ js " " ++ t |}
                                finally
                      end
                  else
                    Update (fun s =>
                              vs <- without_id id (viagens s) ;;
                              Normal (setViagens (fun _ => vs) s))
                           finally
              end))).

End Component.

(** *** Running a handler to its end *)

(** How the outside world settles what one handler awaits. *)
Record World : Type := {
  tokenReply : settled jstring;
  fetchReply : Request -> settled Response;
  cancelledFlag : bool
}.

(** The handler [t] run from state [s] with no other event in between: the
    final state, or the exception of a state updater that threw, and the
    events in order. *)
Fixpoint run (w : World) (t : task) (s : State) : completion State * list event :=
  match t with
  | Return => (Normal s, [])
  | Update f k =>
      match f s with
      | Normal s' => run w k s'
      | Throw e => (Throw e, [])
      end
  | Print msg err k =>
      let '(r, es) := run w k s in (r, Printed msg err :: es)
  | AwaitToken k => run w (k (tokenReply w)) s
  | AwaitFetch req k =>
      let '(r, es) := run w (k (fetchReply w req)) s in (r, Requested req :: es)
  | AwaitBody k => run w k s
  | ReadCancelled k => run w (k (cancelledFlag w)) s
  end.

Definition requests (es : list event) : list Request :=
  flat_map (fun e => match e with Requested r => [r] | Printed _ _ => [] end) es.

(** *** The view *)

Record DeleteButton : Type := {
  del_target : value;      (* the argument [onClick] gives to [handleDelete] *)
  del_disabled : bool
}.

Record Row : Type := {
  row_key : value;
  cell_origem : value;
  cell_destino : value;
  cell_modo : value;
  cell_descricao : jstring;
  row_delete : option DeleteButton
}.

Inductive Listing : Type :=
| ListLoading
| ListEmpty
| ListTable (actions_header : bool) (rows : list Row).

Record Page : Type := {
  avatar : option value;
  user_name : value;
  user_email : value;
  admin_pill : bool;
  reload_disabled : bool;
  save_disabled : bool;
  error_box : option jstring;
  counter : nat;
  listing : Listing
}.

Inductive View : Type :=
| AuthLoadingView
| LoginView
| PageView (p : Page).

Fixpoint mapM {A B} (f : A -> completion B) (l : list A) : completion (list B) :=
  match l with
  | [] => Normal []
  | a :: r =>
      b <- f a ;;
      bs <- mapM f r ;;
      Normal (b :: bs)
  end.

Section Render.

Variable env : Env.

(** [isAdmin] of a render: [roles.has(ADMIN_ROLE)], with [roles] computed from
    the decoded token and the user profile.  The second component is what
    decoding printed. *)
Definition isAdmin (fresh : nat) (st : State) (auth : Auth) : completion bool * console :=
  let '(decoded, out) := decodeJwtPayload fresh (token st) in
  (payload <- decoded ;;
   rs <- roles env payload (user auth) ;;
   Normal (isAdmin_of rs),
   out).

(** [viagem.descricao?.trim() || "—"]. *)
Definition descricao_cell (d : value) : completion jstring :=
  match d with
  | VUndefined | VNull => Normal [8212]
  | VStr s => let t := trim s in Normal (if str_falsy t then [8212] else t)
  | _ => Throw TypeError
  end.

(** [a ?? "-"]. *)
Definition or_dash (v : value) : value :=
  if is_nullish v then VStr (js "-") else v.

Definition render_row (admin : bool) (deleting : value) (viagem : value) : completion Row :=
  vid <- getProp viagem (js "id") ;;
  o <- getProp viagem (js "origemNome") ;;
  d <- getProp viagem (js "destinoNome") ;;
  m <- getProp viagem (js "modoTransporte") ;;
  desc <- getProp viagem (js "descricao") ;;
  cell <- descricao_cell desc ;;
  Normal {| row_key := vid;
            cell_origem := or_dash o;
            cell_destino := or_dash d;
            cell_modo := or_dash m;
            cell_descricao := cell;
            row_delete :=
              if admin
              then Some {| del_target := vid; del_disabled := strictEquals deleting vid |}
              else None |}.

(** What the component returns, up to the text and layout of the page; an
    exception thrown while rendering is the completion. *)
Definition render (fresh : nat) (st : State) (auth : Auth) : completion View :=
  admin <- fst (isAdmin fresh st auth) ;;
  if isLoading auth then Normal AuthLoadingView
  else if negb (isAuthenticated auth) then Normal LoginView
  else
    picture <- getProp (user auth) (js "picture") ;;
    name <- getProp (user auth) (js "name") ;;
    email <- getProp (user auth) (js "email") ;;
    lst <- (if loading st then Normal ListLoading
            else if (List.length (viagens st) =? 0)%nat then Normal ListEmpty
            else
              rows <- mapM (render_row admin (deletingId st)) (viagens st) ;;
              Normal (ListTable admin rows)) ;;
    Normal (PageView
      {| avatar := if truthy picture then Some picture else None;
         user_name := name;
         user_email := email;
         admin_pill := admin;
         reload_disabled := loading st;
         save_disabled := submitting st;
         error_box := match error st with
                      | Some e => if str_falsy e then None else Some e
                      | None => None
                      end;
         counter := List.length (viagens st);
         listing := lst |}).

(** The delete buttons on the page. *)
Definition delete_buttons (v : View) : list DeleteButton :=
  match v with
  | PageView p =>
      match listing p with
      | ListTable _ rows =>
          flat_map (fun r => match row_delete r with Some b => [b] | None => [] end) rows
      | _ => []
      end
  | _ => []
  end.

End Render.

(* ===================================================================== *)
(** ** The component in the event loop *)
(* ===================================================================== *)

(** Handlers do not run to their end in one piece: at each [await] the
    function is suspended and other events are served.  The system below
    keeps the suspended functions and serves one event at a time. *)

Module EventLoop.

(** What settles an [await]. *)
Inductive reply : Type :=
| TokenSettled (r : settled jstring)
| FetchSettled (r : settled Response)
| BodyRead.

(** A suspended function: the effect instance current when it was started
    (for the [cancelled] variable it may read) and what is left of it. *)
Record Suspended : Type := {
  owner : nat;
  rest_of : task
}.

Record Sys : Type := {
  st : State;
  auth : Auth;
  instance : nat;            (* how many times the effect has run *)
  effect_due : bool;         (* a dependency of the effect changed since *)
  pending : list Suspended;
  heap : nat;                (* first free object reference *)
  log : list event
}.

(** The events served. *)
Inductive action : Type :=
| AuthChanged (a : Auth)             (* the identity provider reports a new status *)
| RunEffect                          (* React runs the effect after a commit *)
| Settle (i : nat) (r : reply)       (* the promise the [i]-th suspended function awaits settles *)
| TypeOrigem (t : jstring)
| TypeDestino (t : jstring)
| TypeDescricao (t : jstring)
| TypeModoTransporte (t : jstring)
| Submit                             (* the form is submitted *)
| Reload                             (* click on the reload button *)
| ClickDelete (i : nat).             (* click on the [i]-th delete button *)

(** The synchronous part of a function: up to its next [await] or its end.
    A request is sent when its [fetch] is reached. *)
Fixpoint advance (cancelled : bool) (t : task) (s : State)
  : completion (State * list event * task) :=
  match t with
  | Return => Normal (s, [], Return)
  | Update f k => s' <- f s ;; advance cancelled k s'
  | Print msg err k =>
      r <- advance cancelled k s ;;
      let '(s', es, t') := r in Normal (s', Printed msg err :: es, t')
  | ReadCancelled k => advance cancelled (k cancelled) s
  | AwaitFetch req _ => Normal (s, [Requested req], t)
  | AwaitToken _ | AwaitBody _ => Normal (s, [], t)
  end.

Definition resume (t : task) (r : reply) : option task :=
  match t, r with
  | AwaitToken k, TokenSettled x => Some (k x)
  | AwaitFetch _ k, FetchSettled x => Some (k x)
  | AwaitBody k, BodyRead => Some k
  | _, _ => None
  end.

Definition is_return (t : task) : bool :=
  match t with Return => true | _ => false end.

(** The function [t] of effect instance [own] runs its synchronous part in
    [sys]; [others] are the functions that stay suspended.  The effect
    depends on [fetchViagens], which depends on the token: a change of the
    token makes the effect due.  An exception in a state updater takes the
    component down: there is no next state. *)
Definition proceed (sys : Sys) (own : nat) (t : task) (others : list Suspended)
  : option Sys :=
  match advance (negb (own =? instance sys)%nat) t (st sys) with
  | Throw _ => None
  | Normal (s', es, t') =>
      Some {| st := s';
              auth := auth sys;
              instance := instance sys;
              effect_due := effect_due sys || negb (jstring_eqb (token (st sys)) (token s'));
              pending := if is_return t' then others
                         else others ++ [{| owner := own; rest_of := t' |}];
              heap := heap sys;
              log := log sys ++ es |}
  end.

Fixpoint remove_nth {A} (i : nat) (l : list A) : list A :=
  match i, l with
  | _, [] => []
  | O, _ :: r => r
  | S j, a :: r => a :: remove_nth j r
  end.

Section Step.

Variable env : Env.

(** The page of the last render, when the component shows it. *)
Definition page_of (sys : Sys) : option Page :=
  match render env (heap sys) (st sys) (auth sys) with
  | Normal (PageView p) => Some p
  | _ => None
  end.

Definition with_state (sys : Sys) (s : State) : Sys :=
  {| st := s; auth := auth sys; instance := instance sys;
     effect_due := effect_due sys; pending := pending sys;
     heap := heap sys; log := log sys |}.

(** One event; [None] when the event cannot happen in [sys]. *)
Definition step (sys : Sys) (a : action) : option Sys :=
  match a with
  | AuthChanged a' =>
      Some {| st := st sys;
              auth := a';
              instance := instance sys;
              effect_due := effect_due sys
                            || negb (Bool.eqb (isAuthenticated (auth sys)) (isAuthenticated a'));
              pending := pending sys;
              heap := heap sys;
              log := log sys |}
  | RunEffect =>
      match effect_due sys, render env (heap sys) (st sys) (auth sys) with
      | true, Normal _ =>
          let sys' := {| st := st sys; auth := auth sys;
                         instance := S (instance sys);
                         effect_due := false;
                         pending := pending sys;
                         heap := heap sys; log := log sys |} in
          proceed sys' (S (instance sys))
                  (effect env (isAuthenticated (auth sys)) (token (st sys)))
                  (pending sys)
      | _, _ => None
      end
  | Settle i r =>
      match nth_error (pending sys) i with
      | Some susp =>
          match resume (rest_of susp) r with
          | Some t => proceed sys (owner susp) t (remove_nth i (pending sys))
          | None => None
          end
      | None => None
      end
  | TypeOrigem t =>
      match page_of sys with
      | Some _ => Some (with_state sys (setOrigem t (st sys)))
      | None => None
      end
  | TypeDestino t =>
      match page_of sys with
      | Some _ => Some (with_state sys (setDestino t (st sys)))
      | None => None
      end
  | TypeDescricao t =>
      match page_of sys with
      | Some _ => Some (with_state sys (setDescricao t (st sys)))
      | None => None
      end
  | TypeModoTransporte t =>
      match page_of sys with
      | Some _ => Some (with_state sys (setModoTransporte t (st sys)))
      | None => None
      end
  | Submit =>
      match page_of sys with
      | Some p =>
          if save_disabled p then None
          else proceed sys (instance sys) (handleCreate env (st sys)) (pending sys)
      | None => None
      end
  | Reload =>
      match page_of sys with
      | Some p =>
          if reload_disabled p then None
          else proceed sys (instance sys)
                       (fetchViagens env (token (st sys)) None Return) (pending sys)
      | None => None
      end
  | ClickDelete i =>
      match render env (heap sys) (st sys) (auth sys),
            fst (isAdmin env (heap sys) (st sys) (auth sys)) with
      | Normal view, Normal admin =>
          match nth_error (delete_buttons view) i with
          | Some b =>
              if del_disabled b then None
              else proceed sys (instance sys)
                           (handleDelete env admin (token (st sys)) (del_target b))
                           (pending sys)
          | None => None
          end
      | _, _ => None
      end
  end.

Fixpoint steps (sys : Sys) (acts : list action) : option Sys :=
  match acts with
  | [] => Some sys
  | a :: r =>
      match step sys a with
      | Some sys' => steps sys' r
      | None => None
      end
  end.

(** The component when it mounts: the initial state cells, the status the
    provider reports first, the effect due after the first commit. *)
Definition mount (a0 : Auth) (fresh : nat) : Sys :=
  {| st := initialState; auth := a0; instance := O; effect_due := true;
     pending := []; heap := fresh; log := [] |}.

Definition reachable (a0 : Auth) (fresh : nat) (sys : Sys) : Prop :=
  exists acts, steps (mount a0 fresh) acts = Some sys.

(** A sign-out is quiet when no function of the component is suspended at
    the time the status becomes unauthenticated. *)
Definition quiet (sys : Sys) (a : action) : bool :=
  match a with
  | AuthChanged a' =>
      isAuthenticated a' || match pending sys with [] => true | _ => false end
  | _ => true
  end.

Fixpoint quiet_steps (sys : Sys) (acts : list action) : option Sys :=
  match acts with
  | [] => Some sys
  | a :: r =>
      if quiet sys a then
        match step sys a with
        | Some sys' => quiet_steps sys' r
        | None => None
        end
      else None
  end.

Definition quietly_reachable (a0 : Auth) (fresh : nat) (sys : Sys) : Prop :=
  exists acts, quiet_steps (mount a0 fresh) acts = Some sys.

End Step.

End EventLoop.

(* ===================================================================== *)
(** ** Definitions used to state the properties *)
(* ===================================================================== *)

Import EventLoop.

(** The two replacements of [decodeJwtPayload] on one character. *)
Definition normalize_char (c : Z) : Z :=
  (fun d => if d =? 95 then 47 else d) (if c =? 45 then 43 else c).

(** The six-bit groups of a byte sequence, the last one padded with zero bits
    (RFC 4648, section 4). *)
Fixpoint sextets_of_bytes (bs : list Z) : list Z :=
  match bs with
  | x :: y :: z :: r =>
      x / 4 :: (x mod 4) * 16 + y / 16 :: (y mod 16) * 4 + z / 64 :: z mod 64
      :: sextets_of_bytes r
  | [x; y] => [x / 4; (x mod 4) * 16 + y / 16; (y mod 16) * 4]
  | [x] => [x / 4; (x mod 4) * 16]
  | [] => []
  end.

Fixpoint padding_of (bs : list Z) : jstring :=
  match bs with
  | _ :: _ :: _ :: r => padding_of r
  | [_; _] => [61]
  | [_] => [61; 61]
  | [] => []
  end.

Definition is_sextet (v : Z) : Prop := 0 <= v < 64.

(** What the decoding of base64url text needs of the character for the
    six-bit value [v]: the replacements and the standard alphabet give [v]
    back, and the character is neither white space, nor the padding
    character, nor a dot. *)
Definition alphabet_ok (v : Z) : bool :=
  let c := b64url_char v in
  let n := normalize_char c in
  match sextet_of_char n with Some w => w =? v | None => false end
  && negb (is_ascii_whitespace n) && negb (n =? 61) && negb (c =? 46).

(** What decoding needs of the escape sequence of the byte [b]: a percent
    sign and two hexadecimal digits whose value is [b]. *)
Definition percent_ok (b : Z) : bool :=
  match percent b with
  | [37; h; l] =>
      match hex_value h, hex_value l with
      | Some x, Some y => 16 * x + y =? b
      | _, _ => false
      end
  | _ => false
  end.

(** *** Malformed tokens *)

(** The payload segment of a token: the text between its first and its
    second dot. *)
Definition payload_segment (token : jstring) : option jstring :=
  nth_error (split 46 token) 1.

(** The token has no payload segment, or an empty one. *)
Definition missing_segment (token : jstring) : Prop :=
  payload_segment token = None \/ payload_segment token = Some [].

(** The token has a payload segment that cannot be decoded, with the
    exception that tells why: the segment is not base64, or its bytes are not
    UTF-8, or its text is not JSON. *)
Inductive undecodable (fresh : nat) (token : jstring) : exn -> Prop :=
| invalid_base64 (p : jstring) :
    payload_segment token = Some p -> p <> [] ->
    atob (List.map normalize_char p) = None ->
    undecodable fresh token InvalidCharacterError
| invalid_utf8 (p bytes : jstring) :
    payload_segment token = Some p -> p <> [] ->
    atob (List.map normalize_char p) = Some bytes ->
    decodeURIComponent (flat_map percent bytes) = None ->
    undecodable fresh token URIError
| invalid_json (p bytes text : jstring) :
    payload_segment token = Some p -> p <> [] ->
    atob (List.map normalize_char p) = Some bytes ->
    decodeURIComponent (flat_map percent bytes) = Some text ->
    JSON_parse fresh text = None ->
    undecodable fresh token SyntaxError.

Definition malformed (fresh : nat) (token : jstring) : Prop :=
  token = [] \/ missing_segment token \/ exists e, undecodable fresh token e.

Definition decode_diagnostic : jstring := js "Erro ao decodificar token JWT:".

(** A configuration without overrides. *)
Definition default_env : Env :=
  {| VITE_API_BASE_URL := None; VITE_AUTH0_ROLE_NAMESPACE := None |}.

(** *** The role set as the specification words it *)

(** What SameValueZero compares: the value itself for a primitive, the two
    zeros being one number, and the reference for an array or an object. *)
Definition identity_of (v : value) : value :=
  match v with
  | VNum (S754_zero _) => VNum (S754_zero false)
  | VArr r _ => VArr r []
  | VObj r _ => VObj r []
  | _ => v
  end.

(** No two elements are equal under SameValueZero. *)
Fixpoint distinct (l : list value) : bool :=
  match l with
  | [] => true
  | x :: r => negb (existsb (sameValueZero x) r) && distinct r
  end.

(** [x] is an element of an array that is the value of [source] under [key].
    Nothing is found in an absent source (reading it throws), under a key the
    source does not have, or under a key whose value is not an array. *)
Definition found_under (source : value) (key : jstring) (x : value) : Prop :=
  exists ref arr, getProp source key = Normal (VArr ref arr) /\ In x arr.

(** [x] is in the union of the arrays found under the recognized claim keys
    in the decoded payload or in the user profile. *)
Definition in_role_union (env : Env) (payload user x : value) : Prop :=
  exists source key,
    (source = payload \/ source = user)
    /\ In key (ROLE_CLAIM_KEYS env)
    /\ found_under source key x.

(** *** The signed-out invariant *)

(** While the status is unauthenticated no function of the component is
    suspended, and once the effect has run the token and the list are
    empty. *)
Definition signed_out_clean (sys : Sys) : Prop :=
  isAuthenticated (auth sys) = false ->
  pending sys = []
  /\ (effect_due sys = false -> token (st sys) = [] /\ viagens (st sys) = []).

(** *** Sample data *)

Definition sample_claims : jstring :=
  jsq "{'https://dev-hb5tnbkuyk217lt2.us.auth0.com/roles':['admin']}".

Definition sample_header : jstring := js "eyJhbGciOiJub25lIn0".

Definition sample_token : jstring :=
  sample_header ++ [46] ++ b64url_encode false (utf8_encode sample_claims)
  ++ [46] ++ js "c2ln".

Definition sample_payload : value :=
  VObj 0 [(js "https://dev-hb5tnbkuyk217lt2.us.auth0.com/roles",
           VArr 1 [VStr (js "admin")])].

Definition sample_user : value :=
  VObj 100 [(js "name", VStr (js "Ana"));
            (js "email", VStr (js "ana@example.org"));
            (js "roles", VArr 101 [VStr (js "editor"); VStr (js "admin")])].

Definition sample_trip : value :=
  VObj 200 [(js "id", VNum (number_of_Z 7));
            (js "origemNome", VStr (js "Recife"));
            (js "destinoNome", VStr (js "Natal"));
            (js "descricao", VNull);
            (js "modoTransporte", VStr (js "onibus"))].

Definition signed_in : Auth :=
  {| user := sample_user; isAuthenticated := true; isLoading := false |}.

Definition signed_out : Auth :=
  {| user := VUndefined; isAuthenticated := false; isLoading := false |}.

Definition sample_state : State :=
  setViagens (fun _ => [sample_trip]) (setToken sample_token initialState).

Definition forbidden : Response :=
  {| status := 403;
     text := Resolved (js "Forbidden");
     json := Rejected {| message := js "Unexpected token F" |} |}.

Definition not_a_list : Response :=
  {| status := 200;
     text := Resolved (js "{}");
     json := Resolved (VObj 300 []) |}.

Definition one_trip : Response :=
  {| status := 200;
     text := Resolved (js "[...]");
     json := Resolved (VArr 301 [sample_trip]) |}.

Definition world_of (res : Response) : World :=
  {| tokenReply := Resolved sample_token;
     fetchReply := fun _ => Resolved res;
     cancelledFlag := false |}.

(** Sign-in, the list loaded, then a sign-out with nothing in flight, and
    the effect run until it is no longer due. *)
Definition quiet_session : list action :=
  [RunEffect;
   AuthChanged signed_in;
   RunEffect;
   Settle 0 (TokenSettled (Resolved sample_token));
   Settle 0 (FetchSettled (Resolved one_trip));
   Settle 0 BodyRead;
   RunEffect;
   Settle 0 (TokenSettled (Resolved sample_token));
   Settle 0 (FetchSettled (Resolved one_trip));
   Settle 0 BodyRead;
   AuthChanged signed_out;
   RunEffect;
   RunEffect].

(** Sign-in, the list loaded, then a sign-out: the state the next render
    sees, before the effect has run. *)
Definition before_the_effect : list action :=
  [RunEffect;
   AuthChanged signed_in;
   RunEffect;
   Settle 0 (TokenSettled (Resolved sample_token));
   Settle 0 (FetchSettled (Resolved one_trip));
   Settle 0 BodyRead;
   RunEffect;
   Settle 0 (TokenSettled (Resolved sample_token));
   Settle 0 (FetchSettled (Resolved one_trip));
   Settle 0 BodyRead;
   AuthChanged signed_out].

(** Sign-in, then a sign-out while the list request is in flight; the
    effect runs until it is no longer due, then the response arrives. *)
Definition late_response : list action :=
  [RunEffect;
   AuthChanged signed_in;
   RunEffect;
   Settle 0 (TokenSettled (Resolved sample_token));
   AuthChanged signed_out;
   RunEffect;
   RunEffect;
   Settle 0 (FetchSettled (Resolved one_trip));
   Settle 0 BodyRead].

(** A JSON text with characters of two, three and four UTF-8 octets. *)
Definition accented_text : list Z :=
  jsq "{'n':'Jo" ++ [227] ++ js "o " ++ [8364; 128512] ++ jsq "'}".

Definition sample_roles : jsset := [VStr (js "admin"); VStr (js "editor")].

Definition trip_id : value := VNum (number_of_Z 7).

(** A form with a blank origin, and a form with an empty destination. *)
Definition blank_origin_form : State :=
  setOrigem (js " ") (setDestino (js "Natal") (setModoTransporte (js "onibus") initialState)).

Definition no_destination_form : State :=
  setOrigem (js "Recife") (setModoTransporte (js "onibus") initialState).

Definition filled_form : State :=
  setOrigem (js " Recife") (setDestino (js "Natal ")
    (setDescricao (js "  ") (setModoTransporte (js "onibus") initialState))).

(* ===================================================================== *)
(** ** Further definitions used to state properties *)
(* ===================================================================== *)

(** The four fields of the form. *)
Definition form_of (s : State) : jstring * jstring * jstring * jstring :=
  (origem s, destino s, descricao s, modoTransporte s).

(** The test of the filter of [handleDelete] on one trip:
    [viagem.id !== id]. *)
Definition id_differs (id viagem : value) : bool :=
  match getProp viagem (js "id") with
  | Normal vid => negb (strictEquals vid id)
  | Throw _ => false
  end.

Definition present (v : value) : Prop := is_nullish v = false.

(** The request of [fetchViagens] with the token [t]. *)
Definition list_request (env : Env) (t : jstring) : Request :=
  {| method := js "GET";
     url := API_BASE_URL env ++ js "/viagens";
     url_id := None;
     authorization := js "Bearer " ++ t;
     content_type := None;
     body := None |}.

(** A page whose list holds a [null]. *)
Definition null_in_list : Response :=
  {| status := 200;
     text := Resolved (js "[null]");
     json := Resolved (VArr 302 [VNull]) |}.

Definition server_error : Response :=
  {| status := 500;
     text := Resolved (js "boom");
     json := Rejected {| message := js "Unexpected token b" |} |}.

Definition created_trip : Response :=
  {| status := 201;
     text := Resolved (js "{...}");
     json := Resolved sample_trip |}.

Definition no_content : Response :=
  {| status := 204;
     text := Resolved [];
     json := Rejected {| message := js "Unexpected end of JSON input" |} |}.

Definition other_trip : value :=
  VObj 201 [(js "id", VNum (number_of_Z 8));
            (js "origemNome", VStr (js "Natal"));
            (js "destinoNome", VStr (js "Recife"))].

Definition token_lost : World :=
  {| tokenReply := Rejected {| message := js "login_required" |};
     fetchReply := fun _ => Resolved one_trip;
     cancelledFlag := false |}.

(** The component just after a sign-in: the effect is due, nothing is
    suspended. *)
Definition just_signed_in : Sys :=
  {| st := initialState; auth := signed_in; instance := 1; effect_due := true;
     pending := []; heap := 0; log := [] |}.

Definition two_trips : State :=
  setViagens (fun _ => [sample_trip; other_trip]) (setToken sample_token initialState).

(* ===================================================================== *)
(** ** Facts about strings *)
(* ===================================================================== *)

Section StringFacts.

Lemma jstring_eqb_eq (a b : jstring) : jstring_eqb a b = true <-> a = b.
Proof.
  revert b; induction a as [|x a IH]; intros [|y b]; simpl; split;
    try congruence; try discriminate.
  - rewrite andb_true_iff, Z.eqb_eq, IH. intros [-> ->]; reflexivity.
  - intros H; injection H as -> ->. now rewrite Z.eqb_refl, (proj2 (IH b)).
Qed.

Lemma jstring_eqb_refl (a : jstring) : jstring_eqb a a = true.
Proof. now apply jstring_eqb_eq. Qed.

Lemma str_falsy_nil (s : jstring) : str_falsy s = true <-> s = [].
Proof. destruct s; simpl; split; congruence. Qed.

Lemma split_segment (sep : Z) (h r : jstring) :
  ~ In sep h -> split sep (h ++ sep :: r) = h :: split sep r.
Proof.
  induction h as [|c h IH]; simpl; intros Hn.
  - now rewrite Z.eqb_refl.
  - destruct (Z.eqb_spec c sep) as [->|_]; [tauto|].
    rewrite IH by tauto. reflexivity.
Qed.

(** The second segment of [h.p.s]. *)
Lemma split_second (h p s : jstring) :
  ~ In 46 h -> ~ In 46 p ->
  nth_error (split 46 (h ++ [46] ++ p ++ [46] ++ s)) 1 = Some p.
Proof.
  intros Hh Hp. simpl app.
  rewrite split_segment by assumption.
  rewrite split_segment by assumption. reflexivity.
Qed.

Lemma starts_with_app (n r : jstring) : starts_with n (n ++ r) = true.
Proof. induction n as [|x n IH]; simpl; [reflexivity|]. now rewrite Z.eqb_refl. Qed.

Lemma includes_app (n a b : jstring) : includes n (a ++ n ++ b) = true.
Proof.
  induction a as [|x a IH]; simpl.
  - assert (E : forall h, includes n h = true <-> starts_with n h = true \/
                 match h with [] => False | _ :: h' => includes n h' = true end).
    { intros [|y h]; simpl; rewrite orb_true_iff; intuition congruence. }
    apply E. left. apply starts_with_app.
  - rewrite IH. apply orb_true_r.
Qed.

Lemma trim_start_spaces (s : jstring) :
  forallb is_js_space s = true -> trim_start s = [].
Proof.
  induction s as [|c s IH]; simpl; [reflexivity|].
  rewrite andb_true_iff. intros [-> H]. auto.
Qed.

(** A string of white space trims to the empty string. *)
Lemma trim_spaces (s : jstring) : forallb is_js_space s = true -> trim s = [].
Proof. intros H. unfold trim, trim_end. now rewrite (trim_start_spaces s H). Qed.

(** A property checked on [0 .. n-1] holds on that range. *)
Lemma range_check (P : Z -> bool) (n : nat) :
  forallb P (List.map Z.of_nat (seq 0 n)) = true ->
  forall v, 0 <= v < Z.of_nat n -> P v = true.
Proof.
  intros H v Hv. rewrite forallb_forall in H. apply H.
  apply in_map_iff. exists (Z.to_nat v). split; [lia|].
  apply in_seq. lia.
Qed.

End StringFacts.

(* ===================================================================== *)
(** ** Base64url text is decoded by the two replacements and [atob] *)
(* ===================================================================== *)

Section Base64Facts.

Lemma list_ind3 (P : list Z -> Prop) :
  P [] -> (forall x, P [x]) -> (forall x y, P [x; y]) ->
  (forall x y z r, P r -> P (x :: y :: z :: r)) ->
  forall l, P l.
Proof.
  intros H0 H1 H2 H3.
  fix IH 1. intros [|x [|y [|z r]]]; [exact H0 | apply H1 | apply H2 |].
  apply H3. apply IH.
Qed.

Lemma replace_normalize (s : jstring) :
  replace_all 95 47 (replace_all 45 43 s) = List.map normalize_char s.
Proof. unfold replace_all. rewrite map_map. reflexivity. Qed.

Lemma alphabet_checked : forall v, 0 <= v < 64 -> alphabet_ok v = true.
Proof. apply (range_check alphabet_ok 64). vm_compute. reflexivity. Qed.

Lemma alphabet_sextet v :
  0 <= v < 64 -> sextet_of_char (normalize_char (b64url_char v)) = Some v.
Proof.
  intros H. pose proof (alphabet_checked v H) as A. unfold alphabet_ok in A.
  rewrite !andb_true_iff in A. destruct A as [[[A _] _] _].
  destruct (sextet_of_char _); [|discriminate].
  apply Z.eqb_eq in A. now subst.
Qed.

Lemma alphabet_not_space v :
  0 <= v < 64 -> is_ascii_whitespace (normalize_char (b64url_char v)) = false.
Proof.
  intros H. pose proof (alphabet_checked v H) as A. unfold alphabet_ok in A.
  rewrite !andb_true_iff, !negb_true_iff in A. tauto.
Qed.

Lemma alphabet_not_pad v :
  0 <= v < 64 -> normalize_char (b64url_char v) <> 61.
Proof.
  intros H. pose proof (alphabet_checked v H) as A. unfold alphabet_ok in A.
  rewrite !andb_true_iff, !negb_true_iff, !Z.eqb_neq in A. tauto.
Qed.

Lemma alphabet_not_dot v : 0 <= v < 64 -> b64url_char v <> 46.
Proof.
  intros H. pose proof (alphabet_checked v H) as A. unfold alphabet_ok in A.
  rewrite !andb_true_iff, !negb_true_iff, !Z.eqb_neq in A. tauto.
Qed.

Lemma sextets_of_bytes_range (bs : list Z) :
  Forall is_byte bs -> Forall is_sextet (sextets_of_bytes bs).
Proof.
  unfold is_byte, is_sextet.
  induction bs as [| x | x y | x y z r IH] using list_ind3; intros H; simpl.
  - constructor.
  - inversion_clear H. repeat constructor; lia.
  - inversion_clear H as [|? ? Hx H']. inversion_clear H'.
    repeat constructor; lia.
  - inversion_clear H as [|? ? Hx H']. inversion_clear H' as [|? ? Hy H''].
    inversion_clear H'' as [|? ? Hz Hr].
    repeat (constructor; [lia|]). auto.
Qed.

Lemma encode_sextets (pad : bool) (bs : list Z) :
  b64url_encode pad bs =
  List.map b64url_char (sextets_of_bytes bs) ++ (if pad then padding_of bs else []).
Proof.
  induction bs as [| x | x y | x y z r IH] using list_ind3; simpl.
  - now destruct pad.
  - reflexivity.
  - reflexivity.
  - rewrite IH. reflexivity.
Qed.

Lemma bytes_of_sextets_of_bytes (bs : list Z) :
  Forall is_byte bs -> bytes_of_sextets (sextets_of_bytes bs) = bs.
Proof.
  unfold is_byte.
  induction bs as [| x | x y | x y z r IH] using list_ind3; intros H.
  - reflexivity.
  - inversion_clear H. cbn [sextets_of_bytes bytes_of_sextets].
    f_equal. lia.
  - inversion_clear H as [|? ? Hx H']. inversion_clear H'.
    cbn [sextets_of_bytes bytes_of_sextets]. cbv zeta.
    f_equal; [|f_equal]; lia.
  - inversion_clear H as [|? ? Hx H']. inversion_clear H' as [|? ? Hy H''].
    inversion_clear H'' as [|? ? Hz Hr].
    cbn [sextets_of_bytes bytes_of_sextets]. cbv zeta.
    rewrite (IH Hr).
    f_equal; [|f_equal; [|f_equal]]; lia.
Qed.

Lemma sextets_of_alphabet (vs : list Z) :
  Forall is_sextet vs ->
  sextets (List.map normalize_char (List.map b64url_char vs)) = Some vs.
Proof.
  induction 1 as [|v vs Hv _ IH]; simpl; [reflexivity|].
  now rewrite (alphabet_sextet v Hv), IH.
Qed.

Lemma padding_cases (bs : list Z) :
  padding_of bs = [] \/ padding_of bs = [61] \/ padding_of bs = [61; 61].
Proof. induction bs using list_ind3; simpl; auto. Qed.

Lemma core_length (bs : list Z) :
  Z.of_nat (List.length (sextets_of_bytes bs)) mod 4 <> 1.
Proof.
  induction bs as [| x | x y | x y z r IH] using list_ind3;
    cbn [sextets_of_bytes List.length]; rewrite ?Nat2Z.inj_succ; cbn; lia.
Qed.

Lemma padded_length (bs : list Z) :
  Z.of_nat (List.length (sextets_of_bytes bs) + List.length (padding_of bs)) mod 4 = 0.
Proof.
  induction bs as [| x | x y | x y z r IH] using list_ind3;
    cbn [sextets_of_bytes padding_of List.length Nat.add];
    rewrite ?Nat2Z.inj_succ; cbn; lia.
Qed.

Lemma strip_padding_core (core pad : jstring) :
  Forall (fun c => c <> 61) core ->
  pad = [] \/ pad = [61] \/ pad = [61; 61] ->
  strip_padding (core ++ pad) = core.
Proof.
  intros Hc Hp. unfold strip_padding.
  assert (Hr : match rev core with 61 :: _ => False | _ => True end).
  { destruct (rev core) as [|c r] eqn:E; [exact I|].
    assert (Hin : In c core) by (apply in_rev; rewrite E; now left).
    rewrite Forall_forall in Hc. specialize (Hc c Hin).
    destruct c as [|p|p]; try exact I.
    do 6 (destruct p; try exact I). lia. }
  destruct Hp as [-> | [-> | ->]]; rewrite rev_app_distr; simpl.
  - rewrite app_nil_r.
    destruct (rev core) as [|c r] eqn:E; [reflexivity|].
    destruct c as [|p|p]; try reflexivity.
    do 6 (destruct p; try reflexivity). contradiction.
  - destruct (rev core) as [|c r] eqn:E.
    + rewrite <- (rev_involutive core), E. reflexivity.
    + destruct c as [|p|p]; try (rewrite <- E; apply rev_involutive).
      do 6 (destruct p; try (rewrite <- E; apply rev_involutive)). contradiction.
  - apply rev_involutive.
Qed.

Lemma filter_all {A} (f : A -> bool) (l : list A) :
  Forall (fun a => f a = true) l -> filter f l = l.
Proof.
  induction 1 as [|a l Ha _ IH]; simpl; [reflexivity|]. now rewrite Ha, IH.
Qed.

(** Decoding inverts encoding: for every byte sequence, with or without
    padding, [atob] after the two replacements gives the bytes back. *)
Lemma atob_b64url (pad : bool) (bs : list Z) :
  Forall is_byte bs ->
  atob (replace_all 95 47 (replace_all 45 43 (b64url_encode pad bs))) = Some bs.
Proof.
  intros Hb.
  pose proof (sextets_of_bytes_range bs Hb) as Hs.
  rewrite replace_normalize, encode_sextets, map_app.
  set (core := List.map normalize_char (List.map b64url_char (sextets_of_bytes bs))).
  set (tail := List.map normalize_char (if pad then padding_of bs else [])).
  assert (Hcore : Forall (fun c => c <> 61) core).
  { unfold core. rewrite map_map. apply Forall_map.
    revert Hs. apply Forall_impl. intros v. apply alphabet_not_pad. }
  assert (Htail : tail = [] \/ tail = [61] \/ tail = [61; 61]).
  { unfold tail. destruct pad; [|now left].
    destruct (padding_cases bs) as [-> | [-> | ->]]; simpl; auto. }
  assert (Hlen : List.length core = List.length (sextets_of_bytes bs)).
  { unfold core. now rewrite !length_map. }
  unfold atob.
  rewrite filter_all.
  2:{ apply Forall_app. split.
      - unfold core. rewrite map_map. apply Forall_map.
        revert Hs. apply Forall_impl. intros v Hv.
        now rewrite (alphabet_not_space v Hv).
      - destruct Htail as [-> | [-> | ->]]; repeat constructor. }
  assert (Hstrip :
    (if Z.of_nat (List.length (core ++ tail)) mod 4 =? 0
     then strip_padding (core ++ tail) else core ++ tail) = core).
  { destruct (Z.eqb_spec (Z.of_nat (List.length (core ++ tail)) mod 4) 0) as [E|E].
    - now apply strip_padding_core.
    - unfold tail in *. destruct pad.
      + exfalso. apply E. rewrite length_app, Hlen, length_map. apply padded_length.
      + simpl. apply app_nil_r. }
  rewrite Hstrip.
  destruct (Z.eqb_spec (Z.of_nat (List.length core) mod 4) 1) as [E|_].
  - exfalso. rewrite Hlen in E. now apply (core_length bs).
  - unfold core. rewrite (sextets_of_alphabet _ Hs).
    now rewrite (bytes_of_sextets_of_bytes bs Hb).
Qed.

(** Base64url text contains no dot. *)
Lemma b64url_no_dot (pad : bool) (bs : list Z) :
  Forall is_byte bs -> ~ In 46 (b64url_encode pad bs).
Proof.
  intros Hb Hin. rewrite encode_sextets in Hin.
  apply in_app_or in Hin. destruct Hin as [Hin | Hin].
  - apply in_map_iff in Hin. destruct Hin as [v [Hv Hin]].
    pose proof (sextets_of_bytes_range bs Hb) as Hs.
    rewrite Forall_forall in Hs. now apply (alphabet_not_dot v (Hs v Hin)).
  - destruct pad; [|contradiction].
    destruct (padding_cases bs) as [E | [E | E]]; rewrite E in Hin;
      simpl in Hin; intuition discriminate.
Qed.

Lemma b64url_nil (pad : bool) (bs : list Z) : b64url_encode pad bs = [] -> bs = [].
Proof. destruct bs as [|x [|y [|z r]]]; simpl; try discriminate; auto. Qed.

End Base64Facts.

(* ===================================================================== *)
(** ** Percent-encoded UTF-8 is decoded by [decodeURIComponent] *)
(* ===================================================================== *)

Section UriFacts.

Lemma percent_checked : forall b, 0 <= b < 256 -> percent_ok b = true.
Proof. apply (range_check percent_ok 256). vm_compute. reflexivity. Qed.

Lemma uri_items_percent (b : Z) (r : jstring) :
  is_byte b ->
  uri_items (percent b ++ r) =
  match uri_items r with Some t => Some (Oct b :: t) | None => None end.
Proof.
  intros Hb. pose proof (percent_checked b Hb) as H. unfold percent_ok in H.
  unfold percent in *.
  destruct (padStart2 (toString16 b)) as [|h [|l [|? ?]]]; try discriminate.
  destruct (hex_value h) as [x|] eqn:Eh; [|discriminate].
  destruct (hex_value l) as [y|] eqn:El; [|discriminate].
  apply Z.eqb_eq in H. cbn [app uri_items]. rewrite Z.eqb_refl, Eh, El, H.
  reflexivity.
Qed.

Lemma uri_items_bytes (bs : list Z) :
  Forall is_byte bs -> uri_items (flat_map percent bs) = Some (List.map Oct bs).
Proof.
  induction 1 as [|b bs Hb _ IH]; [reflexivity|].
  cbn [flat_map List.map]. now rewrite uri_items_percent, IH.
Qed.

Ltac decide_tests :=
  repeat match goal with
  | |- context [?a <? ?b] =>
      first [ replace (a <? b) with true by (symmetry; apply Z.ltb_lt; lia)
            | replace (a <? b) with false by (symmetry; apply Z.ltb_ge; lia) ]
  | |- context [?a <=? ?b] =>
      first [ replace (a <=? b) with true by (symmetry; apply Z.leb_le; lia)
            | replace (a <=? b) with false by (symmetry; apply Z.leb_gt; lia) ]
  end.

(** One scalar value: its UTF-8 octets decode to its UTF-16 code units. *)
Lemma decode_items_scalar (cp : Z) (rest : list uri_item) :
  is_scalar cp ->
  decode_items (List.map Oct (utf8_encode1 cp) ++ rest) =
  match decode_items rest with Some t => Some (utf16 cp ++ t) | None => None end.
Proof.
  unfold is_scalar, utf8_encode1. intros Hs.
  destruct (Z.ltb_spec cp 128) as [H1|H1];
    [|destruct (Z.ltb_spec cp 2048) as [H2|H2];
      [|destruct (Z.ltb_spec cp 65536) as [H3|H3]]];
    cbn [List.map app decode_items]; unfold is_continuation; cbv zeta.
  - decide_tests. unfold utf16. decide_tests. reflexivity.
  - decide_tests. cbn [andb negb].
    replace ((192 + cp / 64 - 192) * 64 + (128 + cp mod 64 - 128)) with cp by lia.
    reflexivity.
  - decide_tests. cbn [andb negb].
    replace ((224 + cp / 4096 - 224) * 4096 + (128 + (cp / 64) mod 64 - 128) * 64
             + (128 + cp mod 64 - 128)) with cp by lia.
    assert (E : (55296 <=? cp) && (cp <=? 57343) = false).
    { apply andb_false_iff.
      destruct Hs; [left; apply Z.leb_gt | right; apply Z.leb_gt]; lia. }
    rewrite E. reflexivity.
  - decide_tests. cbn [andb negb].
    replace ((240 + cp / 262144 - 240) * 262144 + (128 + (cp / 4096) mod 64 - 128) * 4096
             + (128 + (cp / 64) mod 64 - 128) * 64 + (128 + cp mod 64 - 128))
      with cp by lia.
    reflexivity.
Qed.

Lemma utf8_bytes (text : list Z) :
  Forall is_scalar text -> Forall is_byte (utf8_encode text).
Proof.
  unfold utf8_encode, is_scalar, is_byte.
  induction 1 as [|cp text Hs _ IH]; cbn [flat_map]; [constructor|].
  apply Forall_app. split; [|exact IH].
  unfold utf8_encode1.
  destruct (Z.ltb_spec cp 128); [|destruct (Z.ltb_spec cp 2048);
    [|destruct (Z.ltb_spec cp 65536)]]; repeat constructor; lia.
Qed.

Lemma decode_items_text (text : list Z) :
  Forall is_scalar text ->
  decode_items (List.map Oct (utf8_encode text)) = Some (utf16_encode text).
Proof.
  unfold utf8_encode, utf16_encode.
  induction 1 as [|cp text Hs _ IH]; [reflexivity|].
  cbn [flat_map]. rewrite map_app, decode_items_scalar by assumption.
  now rewrite IH.
Qed.

(** The text comes back: for every sequence of scalar values, the escape
    sequences of its UTF-8 octets decode to its UTF-16 string. *)
Lemma decodeURIComponent_utf8 (text : list Z) :
  Forall is_scalar text ->
  decodeURIComponent (flat_map percent (utf8_encode text)) = Some (utf16_encode text).
Proof.
  intros H. unfold decodeURIComponent.
  rewrite uri_items_bytes by now apply utf8_bytes.
  now apply decode_items_text.
Qed.

Lemma utf8_nil (text : list Z) : utf8_encode text = [] -> text = [].
Proof.
  destruct text as [|cp text]; [reflexivity|].
  unfold utf8_encode, utf8_encode1. cbn [flat_map].
  destruct (cp <? 128); [|destruct (cp <? 2048); [|destruct (cp <? 65536)]];
    discriminate.
Qed.

Lemma utf16_nil (text : list Z) : utf16_encode text = [] -> text = [].
Proof.
  destruct text as [|cp text]; [reflexivity|].
  unfold utf16_encode, utf16. cbn [flat_map].
  destruct (cp <? 65536); discriminate.
Qed.

End UriFacts.

(* ===================================================================== *)
(** ** [decodeJwtPayload] *)
(* ===================================================================== *)

Section DecodeFacts.

Lemma JSON_parse_empty (fresh : nat) : JSON_parse fresh [] = None.
Proof. reflexivity. Qed.

Lemma missing_segment_empty : missing_segment [].
Proof. left. reflexivity. Qed.

(** The [try] block, stage by stage. *)
Lemma try_missing (fresh : nat) (token : jstring) :
  missing_segment token -> decodeJwtPayload_try fresh token = Normal VNull.
Proof.
  unfold missing_segment, payload_segment, decodeJwtPayload_try.
  intros [-> | ->]; reflexivity.
Qed.

Lemma try_undecodable (fresh : nat) (token : jstring) (e : exn) :
  undecodable fresh token e -> decodeJwtPayload_try fresh token = Throw e.
Proof.
  unfold decodeJwtPayload_try.
  intros [p Hp Hne Ha | p b Hp Hne Ha Hu | p b t Hp Hne Ha Hu Hj];
    unfold payload_segment in Hp; rewrite Hp; destruct p as [|c p]; try congruence;
    cbn [str_falsy]; rewrite replace_normalize, Ha; cbn [or_throw bind];
    try reflexivity; rewrite Hu; cbn [or_throw bind]; try reflexivity.
  now rewrite Hj.
Qed.

Lemma try_decodes (fresh : nat) (token p bytes text : jstring) (v : value) :
  payload_segment token = Some p -> p <> [] ->
  atob (List.map normalize_char p) = Some bytes ->
  decodeURIComponent (flat_map percent bytes) = Some text ->
  JSON_parse fresh text = Some v ->
  decodeJwtPayload_try fresh token = Normal v.
Proof.
  unfold payload_segment, decodeJwtPayload_try.
  intros Hp Hne Ha Hu Hj. rewrite Hp. destruct p as [|c p]; [congruence|].
  cbn [str_falsy]. rewrite replace_normalize, Ha. cbn [or_throw bind].
  rewrite Hu. cbn [or_throw bind]. now rewrite Hj.
Qed.

(** Every token is of exactly one kind for the [try] block: without payload
    segment, undecodable, or decodable. *)
Lemma token_cases (fresh : nat) (token : jstring) :
  missing_segment token
  \/ (exists e, undecodable fresh token e)
  \/ (exists p bytes text v,
        payload_segment token = Some p /\ p <> [] /\
        atob (List.map normalize_char p) = Some bytes /\
        decodeURIComponent (flat_map percent bytes) = Some text /\
        JSON_parse fresh text = Some v).
Proof.
  unfold missing_segment.
  destruct (payload_segment token) as [[|c p]|] eqn:Hp; auto.
  right.
  destruct (atob (List.map normalize_char (c :: p))) as [bytes|] eqn:Ha.
  2:{ left. eexists. eapply invalid_base64; eauto. discriminate. }
  destruct (decodeURIComponent (flat_map percent bytes)) as [text|] eqn:Hu.
  2:{ left. eexists. eapply invalid_utf8; eauto. discriminate. }
  destruct (JSON_parse fresh text) as [v|] eqn:Hj.
  2:{ left. eexists. eapply invalid_json; eauto. discriminate. }
  right. exists (c :: p), bytes, text, v. repeat split; auto. discriminate.
Qed.

End DecodeFacts.

(** C1.  A token [h.p.s] whose payload segment [p] is the base64url
    encoding, padded or not, of the UTF-8 encoding of a JSON text decodes to
    the value [JSON.parse] gives for that text, and nothing is printed. *)
Theorem decodeJwtPayload_well_formed
  (fresh : nat) (pad : bool) (h s text : jstring) (v : value) :
  ~ In 46 h ->
  Forall is_scalar text ->
  JSON_parse fresh (utf16_encode text) = Some v ->
  decodeJwtPayload fresh (h ++ [46] ++ b64url_encode pad (utf8_encode text) ++ [46] ++ s)
  = (Normal v, []).
Proof.
  intros Hh Ht Hj.
  pose proof (utf8_bytes text Ht) as Hb.
  unfold decodeJwtPayload.
  assert (Hne : str_falsy (h ++ [46] ++ b64url_encode pad (utf8_encode text) ++ [46] ++ s)
                = false) by (destruct h; reflexivity).
  rewrite Hne.
  erewrite try_decodes; [reflexivity | | | | | exact Hj].
  - apply split_second; [exact Hh | now apply b64url_no_dot].
  - intros E. apply b64url_nil, utf8_nil in E. subst text.
    cbn in Hj. discriminate.
  - rewrite <- replace_normalize. now apply atob_b64url.
  - now apply decodeURIComponent_utf8.
Qed.

(** C4.  [decodeJwtPayload] returns for every string, it never throws, and
    for a malformed token (empty, without payload segment, not base64, not
    UTF-8, not JSON) what it returns is [null]. *)
Theorem decodeJwtPayload_total (fresh : nat) (token : jstring) :
  exists (v : value) (out : console),
    decodeJwtPayload fresh token = (Normal v, out)
    /\ (malformed fresh token -> v = VNull).
Proof.
  unfold decodeJwtPayload.
  destruct token as [|c token]; cbn [str_falsy].
  { exists VNull, []. auto. }
  destruct (token_cases fresh (c :: token)) as [Hm | [[e He] | Hd]].
  - rewrite (try_missing _ _ Hm). exists VNull, []. auto.
  - rewrite (try_undecodable _ _ _ He). eexists VNull, _. auto.
  - destruct Hd as (p & bytes & text & v & Hp & Hne & Ha & Hu & Hj).
    rewrite (try_decodes _ _ _ _ _ _ Hp Hne Ha Hu Hj).
    exists v, []. split; [reflexivity|].
    intros [E | [[E | E] | [e He]]].
    + discriminate.
    + congruence.
    + congruence.
    + pose proof (try_undecodable _ _ _ He) as T.
      rewrite (try_decodes _ _ _ _ _ _ Hp Hne Ha Hu Hj) in T. discriminate.
Qed.

(** C8, as the code has it.  A token whose payload segment is there but is
    not base64, not UTF-8 or not JSON gives [null] and one diagnostic on the
    console, with the exception caught; a token without payload segment or
    with an empty one (the empty token among them) gives [null] and prints
    nothing. *)
Theorem decodeJwtPayload_diagnostic (fresh : nat) (token : jstring) :
  (forall e, undecodable fresh token e ->
     decodeJwtPayload fresh token = (Normal VNull, [ConsoleError decode_diagnostic e]))
  /\ (missing_segment token -> decodeJwtPayload fresh token = (Normal VNull, [])).
Proof.
  unfold decodeJwtPayload. split.
  - intros e He. rewrite (try_undecodable _ _ _ He).
    destruct token as [|c token]; [|reflexivity].
    inversion He; discriminate.
  - intros Hm. rewrite (try_missing _ _ Hm). now destruct (str_falsy token).
Qed.

(** C8 as stated fails: the token [abc] has no payload segment, so it is
    malformed, and decoding it gives [null] and prints nothing. *)
Lemma decodeJwtPayload_silent_on_missing_segment :
  missing_segment (js "abc")
  /\ malformed 0 (js "abc")
  /\ decodeJwtPayload 0 (js "abc") = (Normal VNull, []).
Proof.
  assert (M : missing_segment (js "abc")) by (left; reflexivity).
  split; [exact M|]. split; [|reflexivity].
  right. left. exact M.
Qed.

(* ===================================================================== *)
(** ** The role set *)
(* ===================================================================== *)

Section SetFacts.

Lemma SFeqb_identity (x y : spec_float) :
  SFeqb x y = true ->
  identity_of (VNum x) = identity_of (VNum y).
Proof.
  unfold SFeqb.
  destruct x as [s | s | | s m e], y as [s' | s' | | s' m' e']; simpl;
    try discriminate; try reflexivity;
    try (destruct s; discriminate); try (destruct s'; discriminate).
  - destruct s, s'; try discriminate; reflexivity.
  - change (PosDef.Pos.compare_cont Eq m m') with (Pos.compare m m').
    destruct s, s'; try discriminate;
      destruct (Z.compare_spec e e') as [-> | |]; try discriminate;
      destruct (Pos.compare_spec m m') as [-> | |]; try discriminate; reflexivity.
Qed.

Lemma SFeqb_refl_finite (s : bool) (m : positive) (e : Z) :
  SFeqb (S754_finite s m e) (S754_finite s m e) = true.
Proof.
  unfold SFeqb. simpl. rewrite Z.compare_refl.
  change (PosDef.Pos.compare_cont Eq m m) with (Pos.compare m m).
  rewrite Pos.compare_refl. now destruct s.
Qed.

Lemma sameValueZero_identity (a b : value) :
  sameValueZero a b = true <-> identity_of a = identity_of b.
Proof.
  split.
  - destruct a as [ | | x | x | s | r es | r ps], b as [ | | y | y | t | r' es' | r' ps'];
      simpl; try discriminate; try reflexivity;
      try (destruct x; discriminate).
    + intros H. apply Bool.eqb_prop in H. now subst.
    + intros H.
      destruct x as [? | ? | | ? ? ?], y as [? | ? | | ? ? ?];
        try reflexivity; try discriminate H; apply (SFeqb_identity _ _ H).
    + intros H. apply jstring_eqb_eq in H. now subst.
    + intros H. apply Nat.eqb_eq in H. now subst.
    + intros H. apply Nat.eqb_eq in H. now subst.
  - destruct a as [ | | x | x | s | r es | r ps], b as [ | | y | y | t | r' es' | r' ps'];
      simpl; try discriminate; try reflexivity;
      try (destruct x; discriminate); try (destruct y; discriminate).
    + intros H; injection H as ->. apply Bool.eqb_reflx.
    + destruct x as [s | s | | s m e], y as [s' | s' | | s' m' e'];
        try discriminate; try reflexivity; intros H; injection H; intros; subst.
      * now destruct s'.
      * apply SFeqb_refl_finite.
    + intros H; injection H as ->. apply jstring_eqb_refl.
    + intros H; injection H as ->. apply Nat.eqb_refl.
    + intros H; injection H as ->. apply Nat.eqb_refl.
Qed.

Lemma sameValueZero_refl (a : value) : sameValueZero a a = true.
Proof. now apply sameValueZero_identity. Qed.

Lemma sameValueZero_sym (a b : value) : sameValueZero a b = sameValueZero b a.
Proof.
  destruct (sameValueZero a b) eqn:E, (sameValueZero b a) eqn:F; try reflexivity.
  - apply sameValueZero_identity in E. symmetry in E.
    apply sameValueZero_identity in E. congruence.
  - apply sameValueZero_identity in F. symmetry in F.
    apply sameValueZero_identity in F. congruence.
Qed.

Lemma sameValueZero_trans (a b c : value) :
  sameValueZero a b = true -> sameValueZero b c = true -> sameValueZero a c = true.
Proof. rewrite !sameValueZero_identity. congruence. Qed.

(** Equal values are the same for [sameValueZero]. *)
Lemma sameValueZero_congr (a b c : value) :
  sameValueZero a b = true -> sameValueZero c a = sameValueZero c b.
Proof.
  intros H.
  destruct (sameValueZero c a) eqn:E, (sameValueZero c b) eqn:F; try reflexivity.
  - rewrite (sameValueZero_trans c a b E H) in F. discriminate.
  - rewrite sameValueZero_sym in H.
    rewrite (sameValueZero_trans c b a F H) in E. discriminate.
Qed.

Lemma Set_has_spec (s : jsset) (x : value) :
  Set_has s x = true <-> exists y, In y s /\ sameValueZero x y = true.
Proof. unfold Set_has. apply existsb_exists. Qed.

Lemma stored_same (x y : value) :
  sameValueZero x
    match y with VNum (S754_zero _) => VNum (S754_zero false) | _ => y end
  = sameValueZero x y.
Proof.
  apply sameValueZero_congr. apply sameValueZero_identity.
  destruct y as [ | | ? | [ | | | ] | ? | ? ? | ? ?]; reflexivity.
Qed.

Lemma Set_add_has (s : jsset) (y x : value) :
  Set_has (Set_add s y) x = true <-> Set_has s x = true \/ sameValueZero x y = true.
Proof.
  unfold Set_add. destruct (Set_has s y) eqn:E.
  - split; [auto|]. intros [H | H]; [exact H|].
    apply Set_has_spec in E. destruct E as [z [Hz Hyz]].
    apply Set_has_spec. exists z. split; [exact Hz|].
    now apply (sameValueZero_trans x y z).
  - unfold Set_has. rewrite existsb_app. cbn [existsb].
    rewrite orb_false_r, orb_true_iff, stored_same. reflexivity.
Qed.

Lemma Set_new_has_from (l : list value) (s : jsset) (x : value) :
  Set_has (fold_left Set_add l s) x = true <->
  Set_has s x = true \/ exists y, In y l /\ sameValueZero x y = true.
Proof.
  revert s. induction l as [|a l IH]; intros s; cbn [fold_left].
  - split; [auto|]. intros [H | [y [[] _]]]. exact H.
  - rewrite IH, Set_add_has. split.
    + intros [[H | H] | [y [Hy H]]]; eauto.
      * right. exists a. split; [now left | exact H].
      * right. exists y. split; [now right | exact H].
    + intros [H | [y [[-> | Hy] H]]]; eauto.
Qed.

(** The members of [new Set(l)] are the values equal to an element of [l]. *)
Lemma Set_new_has (l : list value) (x : value) :
  Set_has (Set_new l) x = true <-> exists y, In y l /\ sameValueZero x y = true.
Proof.
  unfold Set_new. rewrite Set_new_has_from. split; [|auto].
  intros [H | H]; [discriminate | exact H].
Qed.

Lemma distinct_snoc (s : list value) (y : value) :
  distinct s = true -> existsb (sameValueZero y) s = false ->
  distinct (s ++ [y]) = true.
Proof.
  induction s as [|a s IH]; cbn [distinct existsb app]; [reflexivity|].
  rewrite andb_true_iff, negb_true_iff, orb_false_iff.
  intros [Ha Hs] [Hya Hy].
  rewrite existsb_app, Ha. cbn [existsb].
  rewrite sameValueZero_sym, Hya. cbn. auto.
Qed.

Lemma Set_add_distinct (s : jsset) (y : value) :
  distinct s = true -> distinct (Set_add s y) = true.
Proof.
  intros H. unfold Set_add. destruct (Set_has s y) eqn:E; [exact H|].
  apply distinct_snoc; [exact H|].
  unfold Set_has in E.
  set (y' := match y with VNum (S754_zero _) => VNum (S754_zero false) | _ => y end).
  assert (F : existsb (sameValueZero y') s = existsb (sameValueZero y) s).
  { clear. induction s as [|z s IH]; cbn [existsb]; [reflexivity|].
    rewrite IH. f_equal.
    rewrite (sameValueZero_sym y' z), (sameValueZero_sym y z). apply stored_same. }
  now rewrite F.
Qed.

(** [new Set(l)] holds no value twice. *)
Lemma Set_new_distinct (l : list value) : distinct (Set_new l) = true.
Proof.
  unfold Set_new. generalize (eq_refl : distinct [] = true).
  generalize (@nil value). induction l as [|a l IH]; intros s Hs; cbn [fold_left].
  - exact Hs.
  - apply IH. now apply Set_add_distinct.
Qed.

Lemma distinct_NoDup (l : list value) :
  distinct l = true -> NoDup (List.map identity_of l).
Proof.
  induction l as [|a l IH]; cbn [distinct List.map]; [constructor|].
  rewrite andb_true_iff, negb_true_iff. intros [Ha Hl].
  constructor; [|auto].
  intros Hin. apply in_map_iff in Hin. destruct Hin as [b [Hb Hin]].
  assert (E : existsb (sameValueZero a) l = true).
  { apply existsb_exists. exists b. split; [exact Hin|].
    now apply sameValueZero_identity. }
  congruence.
Qed.

(** Two sets with the same members have the same size. *)
Lemma same_members_same_size (s t : jsset) :
  distinct s = true -> distinct t = true ->
  (forall x, Set_has s x = Set_has t x) ->
  List.length s = List.length t.
Proof.
  assert (Hle : forall s t, distinct s = true ->
            (forall x, Set_has s x = Set_has t x) ->
            (List.length s <= List.length t)%nat).
  { clear. intros s t Hs Hst.
    rewrite <- (length_map identity_of s), <- (length_map identity_of t).
    apply NoDup_incl_length; [now apply distinct_NoDup|].
    intros k Hk. apply in_map_iff in Hk. destruct Hk as [y [<- Hy]].
    assert (H : Set_has t y = true).
    { rewrite <- Hst. apply Set_has_spec. exists y. split; [exact Hy|].
      apply sameValueZero_refl. }
    apply Set_has_spec in H. destruct H as [z [Hz Hyz]].
    apply in_map_iff. exists z. split; [|exact Hz].
    symmetry. now apply sameValueZero_identity. }
  intros Hs Ht Hst. apply Nat.le_antisymm; apply Hle; auto.
Qed.

End SetFacts.

Section RoleFacts.

Variable env : Env.

Lemma getProp_present (source : value) (key : jstring) :
  is_nullish source = false -> exists v, getProp source key = Normal v.
Proof.
  destruct source; simpl; try discriminate; intros _; eauto;
    destruct (array_index key); eauto.
Qed.

(** Only a truthy source has an array under a key. *)
Lemma found_under_truthy (source : value) (key : jstring) (x : value) :
  found_under source key x -> truthy source = true.
Proof.
  intros (ref & arr & H & _).
  destruct source as [ | | b | n | s | r es | r ps]; simpl in H;
    try discriminate; try reflexivity.
  destruct (array_index key) as [i|].
  - destruct (nth_error s i); discriminate.
  - destruct (jstring_eqb key key_length); discriminate.
Qed.

Lemma truthy_present (source : value) : truthy source = true -> is_nullish source = false.
Proof. destruct source; simpl; congruence. Qed.

(** A source that is absent contributes nothing. *)
Lemma absent_contributes_nothing (source : value) :
  is_nullish source = true -> extractRolesFromSource env source = Normal [].
Proof. destruct source; simpl; try discriminate; reflexivity. Qed.

Lemma flatMap_elements (source : value) (keys : list jstring) :
  is_nullish source = false ->
  exists l,
    flatMap (fun key =>
               value <- getProp source key ;;
               Normal (if isArray value then elements value else [])) keys
    = Normal l
    /\ forall x, In x l <-> exists key, In key keys /\ found_under source key x.
Proof.
  intros Hs. induction keys as [|k keys (l & El & Hl)]; cbn [flatMap].
  - exists []. split; [reflexivity|]. intros x. split; [intros []|].
    intros (key & [] & _).
  - destruct (getProp_present source k Hs) as [v Ev].
    rewrite Ev, El. cbn [bind].
    eexists. split; [reflexivity|].
    intros x. rewrite in_app_iff, Hl. split.
    + intros [Hx | (key & Hk & Hf)].
      * exists k. split; [now left|].
        destruct v as [ | | ? | ? | ? | r es | ? ?]; try contradiction.
        exists r, es. auto.
      * exists key. split; [now right | exact Hf].
    + intros (key & [<- | Hk] & Hf).
      * left. destruct Hf as (r & es & E & Hx). rewrite Ev in E.
        injection E as ->. exact Hx.
      * right. eauto.
Qed.

(** [extractRolesFromSource] never throws, and what it returns are the
    elements found under the claim keys. *)
Lemma extractRolesFromSource_spec (source : value) :
  exists l,
    extractRolesFromSource env source = Normal l
    /\ forall x, In x l <->
                 exists key, In key (ROLE_CLAIM_KEYS env) /\ found_under source key x.
Proof.
  unfold extractRolesFromSource. destruct (truthy source) eqn:Et; cbn [negb].
  - apply flatMap_elements. now apply truthy_present.
  - exists []. split; [reflexivity|]. intros x. split; [intros []|].
    intros (key & _ & Hf). apply found_under_truthy in Hf. congruence.
Qed.

Lemma bool_iff (a b : bool) : (a = true <-> b = true) -> a = b.
Proof. destruct a, b; intuition congruence. Qed.

End RoleFacts.

(** C2.  The role set is the union of the arrays found under the recognized
    claim keys in the decoded payload and in the user profile: computing it
    never throws; a value is in the set exactly when it equals an element of
    one of these arrays; no value is in it twice; and with the two sources
    exchanged the set has the same members and the same size.  A source that
    is absent, or that has no array under any of the keys, contributes
    nothing. *)
Theorem roles_union (env : Env) (payload user : value) :
  exists rs : jsset,
    roles env payload user = Normal rs
    /\ (forall x, Set_has rs x = true <->
                  exists y, in_role_union env payload user y /\ sameValueZero x y = true)
    /\ distinct rs = true
    /\ (forall source,
          is_nullish source = true
          \/ (forall key ref arr, In key (ROLE_CLAIM_KEYS env) ->
                                  getProp source key <> Normal (VArr ref arr)) ->
          extractRolesFromSource env source = Normal [])
    /\ exists rs' : jsset,
         roles env user payload = Normal rs'
         /\ (forall x, Set_has rs' x = Set_has rs x)
         /\ List.length rs' = List.length rs.
Proof.
  destruct (extractRolesFromSource_spec env payload) as (l1 & E1 & H1).
  destruct (extractRolesFromSource_spec env user) as (l2 & E2 & H2).
  assert (Hmem : forall x, Set_has (Set_new (l2 ++ l1)) x = Set_has (Set_new (l1 ++ l2)) x).
  { intros x. apply bool_iff. rewrite !Set_new_has.
    split; intros (y & Hy & Hxy); exists y; (split; [|exact Hxy]);
      rewrite in_app_iff in *; tauto. }
  exists (Set_new (l1 ++ l2)). unfold roles. rewrite E1, E2. cbn [bind].
  split; [reflexivity|]. split; [|split; [|split]].
  - intros x. rewrite Set_new_has. unfold in_role_union.
    split; intros (y & Hy & Hxy); exists y; (split; [|exact Hxy]).
    + rewrite in_app_iff, H1, H2 in Hy.
      destruct Hy as [(key & Hk & Hf) | (key & Hk & Hf)]; eauto 8.
    + rewrite in_app_iff, H1, H2.
      destruct Hy as (source & key & [-> | ->] & Hk & Hf); eauto.
  - apply Set_new_distinct.
  - intros source [Hn | Hn]; [now apply absent_contributes_nothing|].
    destruct (extractRolesFromSource_spec env source) as ([|x l] & E & H); [exact E|].
    destruct (proj1 (H x) (or_introl eq_refl)) as (key & Hk & ref & arr & Hg & _).
    now destruct (Hn key ref arr Hk).
  - exists (Set_new (l2 ++ l1)). split; [reflexivity|]. split; [exact Hmem|].
    apply same_members_same_size; auto using Set_new_distinct.
Qed.

(* ===================================================================== *)
(** ** The handlers, run to their end *)
(* ===================================================================== *)

Section TrimFacts.

Lemma trim_start_nil (s : jstring) :
  trim_start s = [] <-> forallb is_js_space s = true.
Proof.
  induction s as [|c s IH]; cbn [trim_start forallb]; [tauto|].
  destruct (is_js_space c); cbn [andb]; [exact IH|].
  split; discriminate.
Qed.

Lemma forallb_rev {A} (f : A -> bool) (l : list A) :
  forallb f (rev l) = forallb f l.
Proof.
  induction l as [|a l IH]; [reflexivity|].
  cbn [rev forallb]. rewrite forallb_app, IH. cbn. now rewrite andb_true_r, andb_comm.
Qed.

Lemma trim_start_keeps (s : jstring) :
  forallb is_js_space s = false -> forallb is_js_space (trim_start s) = false.
Proof.
  induction s as [|c s IH]; cbn [trim_start forallb]; [discriminate|].
  destruct (is_js_space c) eqn:E; cbn [andb]; [exact IH|].
  intros _. cbn [forallb]. now rewrite E.
Qed.

(** The trimmed string is empty exactly for a blank string. *)
Lemma trim_blank (s : jstring) : str_falsy (trim s) = forallb is_js_space s.
Proof.
  destruct (forallb is_js_space s) eqn:E.
  - now rewrite (trim_spaces s E).
  - unfold trim, trim_end.
    pose proof (trim_start_keeps s E) as H1.
    rewrite <- forallb_rev in H1.
    apply trim_start_keeps in H1.
    destruct (trim_start (rev (trim_start s))) as [|c r] eqn:F; [discriminate|].
    cbn [rev]. now destruct (rev r).
Qed.

End TrimFacts.

Section HandlerFacts.

Variable env : Env.

Lemma render_row_delete (admin : bool) (deleting viagem : value) (r : Row) :
  render_row admin deleting viagem = Normal r ->
  (row_delete r <> None <-> admin = true).
Proof.
  unfold render_row.
  destruct (getProp viagem (js "id")); [|discriminate].
  destruct (getProp viagem (js "origemNome")); [|discriminate].
  destruct (getProp viagem (js "destinoNome")); [|discriminate].
  destruct (getProp viagem (js "modoTransporte")); [|discriminate].
  destruct (getProp viagem (js "descricao")) as [d|]; [|discriminate].
  cbn [bind]. destruct (descricao_cell d); [|discriminate].
  cbn [bind]. intros H; injection H as <-. cbn [row_delete].
  destruct admin; split; congruence.
Qed.

Lemma mapM_forall {A B} (f : A -> completion B) (P : B -> Prop) (l : list A) (bs : list B) :
  (forall a b, f a = Normal b -> P b) ->
  mapM f l = Normal bs -> forall b, In b bs -> P b.
Proof.
  intros Hf. revert bs. induction l as [|a l IH]; cbn [mapM]; intros bs H.
  - injection H as <-. intros b [].
  - destruct (f a) as [b0|] eqn:Ea; [|discriminate]. cbn [bind] in H.
    destruct (mapM f l) as [bs0|]; [|discriminate]. cbn [bind] in H.
    injection H as <-. intros b [<- | Hb]; eauto.
Qed.

(** The page of a render shows the administrator's elements as [isAdmin]
    says. *)
Lemma render_page (fresh : nat) (st : State) (auth : Auth) (admin : bool) (p : Page) :
  fst (isAdmin env fresh st auth) = Normal admin ->
  render env fresh st auth = Normal (PageView p) ->
  isAuthenticated auth = true /\ isLoading auth = false
  /\ admin_pill p = admin
  /\ reload_disabled p = loading st
  /\ save_disabled p = submitting st
  /\ forall hdr rows, listing p = ListTable hdr rows ->
       hdr = admin /\ forall r, In r rows -> (row_delete r <> None <-> admin = true).
Proof.
  intros Ha. unfold render. rewrite Ha. cbn [bind].
  destruct (isLoading auth); [discriminate|].
  destruct (isAuthenticated auth); [|discriminate]. cbn [negb].
  destruct (getProp (user auth) (js "picture")); [|discriminate].
  destruct (getProp (user auth) (js "name")); [|discriminate].
  destruct (getProp (user auth) (js "email")); [|discriminate].
  cbn [bind].
  destruct (loading st) eqn:El.
  - cbn [bind]. intros H; injection H as <-. cbn.
    repeat split; auto; discriminate.
  - destruct (List.length (viagens st) =? 0)%nat.
    + cbn [bind]. intros H; injection H as <-. cbn.
      repeat split; auto; discriminate.
    + destruct (mapM (render_row admin (deletingId st)) (viagens st)) as [rows|] eqn:Er;
        [|discriminate].
      cbn [bind]. intros H; injection H as <-. cbn.
      do 5 (split; [reflexivity|]).
      intros ? ? E. injection E as <- <-. split; [reflexivity|].
        apply (mapM_forall _ _ _ _ (render_row_delete admin (deletingId st)) Er).
Qed.

End HandlerFacts.


(** C5.  A delete request the server answers with a status outside 200-299
    and a body that reads as the text [t]: the list is as before, and the
    message shown is [Erro ao excluir: ], the status in decimal, a space and
    [t], so it includes the status and the body text. *)
Theorem handleDelete_failure
  (env : Env) (w : World) (tok : jstring) (id : value) (s : State)
  (res : Response) (t : jstring) :
  (forall req, fetchReply w req = Resolved res) ->
  ok res = false ->
  text res = Resolved t ->
  exists req s',
    run w (handleDelete env true tok id) s = (Normal s', [Requested req])
    /\ method req = js "DELETE"
    /\ viagens s' = viagens s
    /\ error s' = Some (js "Erro ao excluir: " ++ decimal (status res) ++ js " " ++ t)
    /\ includes (decimal (status res))
                (js "Erro ao excluir: " ++ decimal (status res) ++ js " " ++ t) = true
    /\ includes t (js "Erro ao excluir: " ++ decimal (status res) ++ js " " ++ t) = true.
Proof.
  intros Hw Hok Ht. unfold handleDelete. cbn [negb set run].
  rewrite Hw, Hok. cbn [negb run]. rewrite Ht. cbn [run message].
  eexists _, _. split; [reflexivity|].
  split; [reflexivity|]. split; [reflexivity|]. split; [reflexivity|]. split.
  - apply includes_app.
  - assert (E : js "Erro ao excluir: " ++ decimal (status res) ++ js " " ++ t
               = (js "Erro ao excluir: " ++ decimal (status res) ++ js " ") ++ t ++ []).
    { rewrite app_nil_r, <- !app_assoc. reflexivity. }
    rewrite E. apply includes_app.
Qed.

(** C6.  [fetchViagens] with an empty effective token sends nothing and
    changes nothing.  With a token, a response with a status in 200-299 whose
    body parses to a value that is not an array empties the list; no error
    message is set and nothing is thrown. *)
Theorem fetchViagens_guard_and_coercion
  (env : Env) (w : World) (tok : jstring) (provided : option jstring) (s : State) :
  (nullish_or provided tok = [] ->
   run w (fetchViagens env tok provided Return) s = (Normal s, []))
  /\ (forall res data,
        nullish_or provided tok <> [] ->
        (forall req, fetchReply w req = Resolved res) ->
        ok res = true ->
        json res = Resolved data ->
        isArray data = false ->
        exists req s',
          run w (fetchViagens env tok provided Return) s = (Normal s', [Requested req])
          /\ method req = js "GET"
          /\ authorization req = js "Bearer " ++ nullish_or provided tok
          /\ viagens s' = []
          /\ error s' = None
          /\ loading s' = false).
Proof.
  unfold fetchViagens. split.
  - intros ->. reflexivity.
  - intros res data Hne Hw Hok Hj Harr.
    destruct (nullish_or provided tok) as [|c a]; [congruence|].
    cbn [str_falsy set run]. rewrite Hw, Hok. cbn [negb run]. rewrite Hj, Harr.
    cbn [run]. eexists _, _. repeat split; reflexivity.
Qed.

Section CreateFacts.

Variable env : Env.

(** With the three required fields not empty, [handleCreate] sends one POST
    request, whatever the server answers. *)
Lemma handleCreate_sends (w : World) (st : State) :
  origem st <> [] -> destino st <> [] -> modoTransporte st <> [] ->
  exists req,
    requests (snd (run w (handleCreate env st) st)) = [req]
    /\ method req = js "POST"
    /\ body req = Some (JSON_stringify_dto
         {| origemNome := trim (origem st);
            destinoNome := trim (destino st);
            dto_descricao :=
              if forallb is_js_space (descricao st) then None
              else Some (trim (descricao st));
            dto_modoTransporte := trim (modoTransporte st) |}).
Proof.
  intros Ho Hd Hm. unfold handleCreate.
  assert (E : str_falsy (origem st) || str_falsy (destino st)
              || str_falsy (modoTransporte st) = false).
  { rewrite !orb_false_iff. repeat split;
      match goal with |- str_falsy ?x = false => destruct x; [congruence | reflexivity] end. }
  rewrite E. cbv zeta. rewrite trim_blank. cbn [set run].
  eexists. split.
  - destruct (fetchReply w _) as [res | err]; cbn [run negb]; [|reflexivity].
    destruct (ok res); cbn [negb run];
      [destruct (json res) | destruct (text res)]; reflexivity.
  - split; reflexivity.
Qed.

End CreateFacts.

(** C7.  [handleCreate] with an empty origin, destination or transport mode
    sends no request and sets the validation message.  With the three of them
    not empty it sends one POST request whose body is the JSON text of the
    trimmed origin, destination and transport mode, and of the description,
    trimmed, or [null] for a blank description. *)
Theorem handleCreate_validation (env : Env) (w : World) (st : State) :
  (origem st = [] \/ destino st = [] \/ modoTransporte st = [] ->
   run w (handleCreate env st) st = (Normal (setError (Some validation_message) st), []))
  /\ (origem st <> [] -> destino st <> [] -> modoTransporte st <> [] ->
      exists req,
        requests (snd (run w (handleCreate env st) st)) = [req]
        /\ method req = js "POST"
        /\ body req = Some (JSON_stringify_dto
             {| origemNome := trim (origem st);
                destinoNome := trim (destino st);
                dto_descricao :=
                  if forallb is_js_space (descricao st) then None
                  else Some (trim (descricao st));
                dto_modoTransporte := trim (modoTransporte st) |})).
Proof.
  split.
  - intros H. unfold handleCreate.
    assert (E : str_falsy (origem st) || str_falsy (destino st)
                || str_falsy (modoTransporte st) = true).
    { rewrite !orb_true_iff, !str_falsy_nil. tauto. }
    rewrite E. reflexivity.
  - apply handleCreate_sends.
Qed.

(** C10.  The validation of [handleCreate] looks at the fields as typed: an
    origin made of white space only (and not empty) passes it, and the
    request is sent with the empty string as origin. *)
Theorem handleCreate_blank_origin (env : Env) (w : World) (st : State) :
  origem st <> [] ->
  forallb is_js_space (origem st) = true ->
  destino st <> [] ->
  modoTransporte st <> [] ->
  exists req,
    requests (snd (run w (handleCreate env st) st)) = [req]
    /\ method req = js "POST"
    /\ body req = Some (JSON_stringify_dto
         {| origemNome := [];
            destinoNome := trim (destino st);
            dto_descricao :=
              if forallb is_js_space (descricao st) then None
              else Some (trim (descricao st));
            dto_modoTransporte := trim (modoTransporte st) |}).
Proof.
  intros Ho Hs Hd Hm.
  destruct (handleCreate_sends env w st Ho Hd Hm) as (req & Hreq & Hmeth & Hbody).
  exists req. rewrite (trim_spaces _ Hs) in Hbody. auto.
Qed.

(* ===================================================================== *)
(** ** The component in the event loop: signing out *)
(* ===================================================================== *)

Section EventLoopFacts.

Variable env : Env.

(** The page is rendered only for an authenticated user. *)
Lemma page_authenticated (fresh : nat) (s : State) (a : Auth) (p : Page) :
  render env fresh s a = Normal (PageView p) -> isAuthenticated a = true.
Proof.
  unfold render. destruct (fst (isAdmin env fresh s a)); [|discriminate].
  cbn [bind]. destruct (isLoading a); [discriminate|].
  destruct (isAuthenticated a); [reflexivity | discriminate].
Qed.

Lemma page_of_authenticated (sys : Sys) (p : Page) :
  page_of env sys = Some p -> isAuthenticated (auth sys) = true.
Proof.
  unfold page_of.
  destruct (render env (heap sys) (st sys) (auth sys)) as [[| |q]|] eqn:E;
    try discriminate.
  intros _. exact (page_authenticated _ _ _ _ E).
Qed.

Lemma delete_button_authenticated (fresh : nat) (s : State) (a : Auth)
      (view : View) (i : nat) (b : DeleteButton) :
  render env fresh s a = Normal view ->
  nth_error (delete_buttons view) i = Some b ->
  isAuthenticated a = true.
Proof.
  intros Hr Hb. destruct view as [| |p].
  - destruct i; discriminate.
  - destruct i; discriminate.
  - exact (page_authenticated _ _ _ _ Hr).
Qed.

Lemma proceed_auth (sys sys' : Sys) (own : nat) (t : task) (others : list Suspended) :
  proceed sys own t others = Some sys' -> auth sys' = auth sys.
Proof.
  unfold proceed.
  destruct (advance _ t (st sys)) as [[[s' es] t']|]; [|discriminate].
  intros H; injection H as <-. reflexivity.
Qed.

(** The effect under the unauthenticated status: its two resets, at once. *)
Lemma effect_signed_out (tok : jstring) (c : bool) (s : State) :
  advance c (effect env false tok) s
  = Normal (setViagens (fun _ => []) (setToken [] s), [], Return).
Proof. reflexivity. Qed.

(** One event keeps the invariant, when a sign-out is quiet. *)
Lemma step_signed_out_clean (sys sys' : Sys) (a : action) :
  signed_out_clean sys -> quiet sys a = true -> step env sys a = Some sys' ->
  signed_out_clean sys'.
Proof.
  unfold signed_out_clean. intros Inv Hq Hstep.
  destruct a as [a' | | i r | t | t | t | t | | | i]; cbn [step] in Hstep.
  - (* AuthChanged *)
    injection Hstep as <-. cbn. intros Ha'.
    cbn [quiet] in Hq. rewrite Ha' in Hq. cbn [orb] in Hq.
    split; [now destruct (pending sys)|].
    intros Hdue. apply orb_false_iff in Hdue. destruct Hdue as [Hdue Hsame].
    apply negb_false_iff, Bool.eqb_prop in Hsame. rewrite Ha' in Hsame.
    now apply Inv.
  - (* RunEffect *)
    destruct (effect_due sys); [|discriminate].
    destruct (render env (heap sys) (st sys) (auth sys)); [|discriminate].
    destruct (isAuthenticated (auth sys)) eqn:Ea.
    + intros Ha'. rewrite (proceed_auth _ _ _ _ _ Hstep) in Ha'. cbn in Ha'. congruence.
    + unfold proceed in Hstep. rewrite effect_signed_out in Hstep.
      injection Hstep as <-. cbn. intros _.
      destruct (Inv eq_refl) as [Hp _]. rewrite Hp. auto.
  - (* Settle *)
    destruct (nth_error (pending sys) i) as [susp|] eqn:En; [|discriminate].
    destruct (resume (rest_of susp) r); [|discriminate].
    intros Ha'. rewrite (proceed_auth _ _ _ _ _ Hstep) in Ha'.
    destruct (Inv Ha') as [Hp _]. rewrite Hp in En. destruct i; discriminate.
  - destruct (page_of env sys) as [p|] eqn:Ep; [|discriminate].
    injection Hstep as <-. cbn. intros Ha'.
    rewrite (page_of_authenticated _ _ Ep) in Ha'. discriminate.
  - destruct (page_of env sys) as [p|] eqn:Ep; [|discriminate].
    injection Hstep as <-. cbn. intros Ha'.
    rewrite (page_of_authenticated _ _ Ep) in Ha'. discriminate.
  - destruct (page_of env sys) as [p|] eqn:Ep; [|discriminate].
    injection Hstep as <-. cbn. intros Ha'.
    rewrite (page_of_authenticated _ _ Ep) in Ha'. discriminate.
  - destruct (page_of env sys) as [p|] eqn:Ep; [|discriminate].
    injection Hstep as <-. cbn. intros Ha'.
    rewrite (page_of_authenticated _ _ Ep) in Ha'. discriminate.
  - (* Submit *)
    destruct (page_of env sys) as [p|] eqn:Ep; [|discriminate].
    destruct (save_disabled p); [discriminate|].
    intros Ha'. rewrite (proceed_auth _ _ _ _ _ Hstep) in Ha'.
    rewrite (page_of_authenticated _ _ Ep) in Ha'. discriminate.
  - (* Reload *)
    destruct (page_of env sys) as [p|] eqn:Ep; [|discriminate].
    destruct (reload_disabled p); [discriminate|].
    intros Ha'. rewrite (proceed_auth _ _ _ _ _ Hstep) in Ha'.
    rewrite (page_of_authenticated _ _ Ep) in Ha'. discriminate.
  - (* ClickDelete *)
    destruct (render env (heap sys) (st sys) (auth sys)) as [view|] eqn:Er; [|discriminate].
    destruct (fst (isAdmin env (heap sys) (st sys) (auth sys))); [|discriminate].
    destruct (nth_error (delete_buttons view) i) as [b|] eqn:Eb; [|discriminate].
    destruct (del_disabled b); [discriminate|].
    intros Ha'. rewrite (proceed_auth _ _ _ _ _ Hstep) in Ha'.
    rewrite (delete_button_authenticated _ _ _ _ _ _ Er Eb) in Ha'. discriminate.
Qed.

Lemma quiet_steps_signed_out_clean (acts : list action) (sys sys' : Sys) :
  signed_out_clean sys -> quiet_steps env sys acts = Some sys' ->
  signed_out_clean sys'.
Proof.
  revert sys. induction acts as [|a acts IH]; cbn [quiet_steps]; intros sys Inv H.
  - injection H as <-. exact Inv.
  - destruct (quiet sys a) eqn:Hq; [|discriminate].
    destruct (step env sys a) as [sys1|] eqn:Hs; [|discriminate].
    apply (IH sys1); [|exact H].
    exact (step_signed_out_clean _ _ _ Inv Hq Hs).
Qed.

Lemma mount_signed_out_clean (a0 : Auth) (fresh : nat) :
  signed_out_clean (mount a0 fresh).
Proof. intros _. split; [reflexivity | discriminate]. Qed.

End EventLoopFacts.

(** C9, as the code has it.  The effect run under the unauthenticated status
    sets the token to the empty string and the list to the empty list.  So,
    when no function of the component is suspended at the time the status
    becomes unauthenticated, every state of the component in which the status
    is unauthenticated and the effect is not due has an empty token and an
    empty list. *)
Theorem signed_out_state_is_empty
  (env : Env) (a0 : Auth) (fresh : nat) (sys : Sys) :
  quietly_reachable env a0 fresh sys ->
  isAuthenticated (auth sys) = false ->
  effect_due sys = false ->
  (token (st sys) = [] /\ viagens (st sys) = [])
  /\ forall w tok s, exists s',
       run w (effect env false tok) s = (Normal s', [])
       /\ token s' = [] /\ viagens s' = [].
Proof.
  intros [acts Hacts] Ha Hdue. split.
  - pose proof (quiet_steps_signed_out_clean env acts _ _
                  (mount_signed_out_clean a0 fresh) Hacts) as Inv.
    destruct (Inv Ha) as [_ H]. exact (H Hdue).
  - intros w tok s. eexists. split; [reflexivity|]. split; reflexivity.
Qed.

(** C9 as stated fails, twice.  After a sign-out the token and the list
    keep their values until the effect runs, so the render in between sees an
    unauthenticated status with a token and a list.  And when the user signs
    out while the list request is in flight, the response that arrives
    afterwards fills the list; nothing makes the effect run again, and the
    list stays filled while the status is unauthenticated. *)
Lemma list_filled_after_sign_out :
  (exists sys,
     steps default_env (mount signed_out 0) before_the_effect = Some sys
     /\ isAuthenticated (auth sys) = false
     /\ effect_due sys = true
     /\ token (st sys) = sample_token
     /\ viagens (st sys) = [sample_trip])
  /\ (exists sys,
        steps default_env (mount signed_out 0) late_response = Some sys
        /\ isAuthenticated (auth sys) = false
        /\ effect_due sys = false
        /\ pending sys = []
        /\ token (st sys) = []
        /\ viagens (st sys) = [sample_trip]).
Proof.
  split; eexists; (split; [vm_compute; reflexivity|]); repeat split.
Qed.

(* ===================================================================== *)
(** ** The properties on the sample data *)
(* ===================================================================== *)

Section Checks.

Lemma no_dot_check (s : jstring) :
  forallb (fun c => negb (c =? 46)) s = true -> ~ In 46 s.
Proof.
  intros H Hin. rewrite forallb_forall in H. specialize (H 46 Hin). discriminate.
Qed.

Lemma scalar_check (s : list Z) :
  forallb (fun c => (0 <=? c) && (c <? 55296)) s = true -> Forall is_scalar s.
Proof.
  intros H. apply Forall_forall. intros c Hc.
  rewrite forallb_forall in H. specialize (H c Hc).
  apply andb_true_iff in H. destruct H as [H1 H2].
  apply Z.leb_le in H1. apply Z.ltb_lt in H2. left. lia.
Qed.

End Checks.

Example sample_token_text :
  sample_token
  = js "eyJhbGciOiJub25lIn0.eyJodHRwczovL2Rldi1oYjV0bmJrdXlrMjE3bHQyLnVzLmF1dGgwLmNvbS9yb2xlcyI6WyJhZG1pbiJdfQ.c2ln".
Proof. vm_compute. reflexivity. Qed.

Example atob_forgiving :
  atob (js " YW Jj ZA== ") = Some (js "abcd")
  /\ atob (js "YWJjZA") = Some (js "abcd")
  /\ atob (js "YWJjZ") = None
  /\ atob (js "YW-j") = None.
Proof. vm_compute. repeat split. Qed.

Example accented_token_decodes :
  utf8_encode accented_text
  = jsq "{'n':'Jo" ++ [195; 163] ++ js "o " ++ [226; 130; 172; 240; 159; 152; 128]
    ++ jsq "'}"
  /\ decodeJwtPayload 0 (js "e30." ++ b64url_encode false (utf8_encode accented_text)
                          ++ js ".c2ln")
     = (Normal (VObj 0 [(js "n", VStr (js "Jo" ++ [227] ++ js "o "
                                      ++ [8364; 55357; 56832]))]), []).
Proof. vm_compute. split; reflexivity. Qed.

Example JSON_parse_samples :
  JSON_parse 0 (jsq "{'a':[1,{'b':null}],'a':true}") = Some (VObj 0 [(js "a", VBool true)])
  /\ JSON_parse 5 (jsq " [ 'x\u0041' , -0.5e1 ] ")
     = Some (VArr 5 [VStr (js "xA"); VNum (S754_finite true 5629499534213120 (-50))])
  /\ JSON_parse 0 (jsq "{'a':1,}") = None
  /\ JSON_parse 0 (jsq "01") = None
  /\ JSON_parse 0 (js "") = None.
Proof. vm_compute. repeat split. Qed.

Example sample_roles_computed :
  roles default_env sample_payload sample_user = Normal sample_roles.
Proof. vm_compute. reflexivity. Qed.

(** The scenario of the specification: a token whose payload has the role
    ["admin"] under the namespace key gives delete buttons. *)
Example admin_token_gives_delete_button :
  option_map (fun v => delete_buttons v)
    (match render default_env 0 sample_state
             {| user := VObj 100 []; isAuthenticated := true; isLoading := false |}
     with Normal v => Some v | Throw _ => None end)
  = Some [{| del_target := trip_id; del_disabled := false |}].
Proof. vm_compute. reflexivity. Qed.

Lemma decodeJwtPayload_well_formed_witness :
  decodeJwtPayload 0 sample_token = (Normal sample_payload, []).
Proof.
  apply (decodeJwtPayload_well_formed 0 false sample_header (js "c2ln") sample_claims).
  - apply no_dot_check. vm_compute. reflexivity.
  - apply scalar_check. vm_compute. reflexivity.
  - vm_compute. reflexivity.
Defined.


Lemma decodeJwtPayload_total_witness :
  malformed 0 (js "a.!.c")
  /\ exists out, decodeJwtPayload 0 (js "a.!.c") = (Normal VNull, out).
Proof.
  assert (M : malformed 0 (js "a.!.c")).
  { right. right. exists InvalidCharacterError.
    apply (invalid_base64 0 (js "a.!.c") (js "!")); [reflexivity | discriminate | reflexivity]. }
  split; [exact M|].
  destruct (decodeJwtPayload_total 0 (js "a.!.c")) as (v & out & E & H).
  exists out. rewrite E, (H M). reflexivity.
Defined.

Lemma handleDelete_failure_witness :
  exists req s',
    run (world_of forbidden) (handleDelete default_env true sample_token trip_id) sample_state
    = (Normal s', [Requested req])
    /\ viagens s' = [sample_trip]
    /\ error s' = Some (js "Erro ao excluir: 403 Forbidden")
    /\ includes (js "403") (js "Erro ao excluir: 403 Forbidden") = true
    /\ includes (js "Forbidden") (js "Erro ao excluir: 403 Forbidden") = true.
Proof.
  destruct (handleDelete_failure default_env (world_of forbidden) sample_token trip_id
              sample_state forbidden (js "Forbidden")
              (fun _ => eq_refl) eq_refl eq_refl)
    as (req & s' & E & _ & Hv & He & Hi & Hj).
  exists req, s'. repeat split; assumption.
Defined.

Lemma fetchViagens_guard_and_coercion_witness :
  run (world_of not_a_list) (fetchViagens default_env [] None Return) sample_state
  = (Normal sample_state, [])
  /\ exists req s',
       run (world_of not_a_list) (fetchViagens default_env sample_token None Return)
           sample_state
       = (Normal s', [Requested req])
       /\ viagens s' = [] /\ error s' = None.
Proof.
  split.
  - exact (proj1 (fetchViagens_guard_and_coercion default_env (world_of not_a_list)
                    [] None sample_state) eq_refl).
  - destruct (proj2 (fetchViagens_guard_and_coercion default_env (world_of not_a_list)
                       sample_token None sample_state)
                    not_a_list (VObj 300 [])
                    ltac:(discriminate) (fun _ => eq_refl) eq_refl eq_refl eq_refl)
      as (req & s' & E & _ & _ & Hv & He & _).
    exists req, s'. repeat split; assumption.
Defined.

Lemma handleCreate_validation_witness :
  run (world_of one_trip) (handleCreate default_env no_destination_form) no_destination_form
  = (Normal (setError (Some validation_message) no_destination_form), [])
  /\ exists req,
       requests (snd (run (world_of one_trip) (handleCreate default_env filled_form)
                          filled_form)) = [req]
       /\ body req = Some (jsq "{'origemNome':'Recife','destinoNome':'Natal','descricao':null,'modoTransporte':'onibus'}").
Proof.
  split.
  - apply (proj1 (handleCreate_validation default_env (world_of one_trip)
                    no_destination_form)).
    right. left. reflexivity.
  - destruct (proj2 (handleCreate_validation default_env (world_of one_trip) filled_form)
                    ltac:(discriminate) ltac:(discriminate) ltac:(discriminate))
      as (req & E & _ & Hb).
    exists req. split; assumption.
Defined.

Lemma decodeJwtPayload_diagnostic_witness :
  decodeJwtPayload 0 (js "a.!.c")
  = (Normal VNull, [ConsoleError decode_diagnostic InvalidCharacterError])
  /\ decodeJwtPayload 0 (js "a.gA.c")
     = (Normal VNull, [ConsoleError decode_diagnostic URIError])
  /\ decodeJwtPayload 0 (js "a.ew.c")
     = (Normal VNull, [ConsoleError decode_diagnostic SyntaxError])
  /\ decodeJwtPayload 0 (js "a..c") = (Normal VNull, []).
Proof.
  split; [|split; [|split]].
  - apply (proj1 (decodeJwtPayload_diagnostic 0 (js "a.!.c"))).
    apply (invalid_base64 0 _ (js "!")); [reflexivity | discriminate | reflexivity].
  - apply (proj1 (decodeJwtPayload_diagnostic 0 (js "a.gA.c"))).
    apply (invalid_utf8 0 _ (js "gA") [128]);
      [reflexivity | discriminate | reflexivity | reflexivity].
  - apply (proj1 (decodeJwtPayload_diagnostic 0 (js "a.ew.c"))).
    apply (invalid_json 0 _ (js "ew") [123] [123]);
      [reflexivity | discriminate | reflexivity | reflexivity | reflexivity].
  - apply (proj2 (decodeJwtPayload_diagnostic 0 (js "a..c"))).
    right. reflexivity.
Defined.

Lemma signed_out_state_is_empty_witness :
  exists sys,
    quiet_steps default_env (mount signed_out 0) quiet_session = Some sys
    /\ isAuthenticated (auth sys) = false
    /\ effect_due sys = false
    /\ token (st sys) = [] /\ viagens (st sys) = [].
Proof.
  eexists. split; [vm_compute; reflexivity|].
  split; [reflexivity|]. split; [reflexivity|].
  match goal with
  | |- token (st ?s) = _ /\ _ =>
      refine (proj1 (signed_out_state_is_empty default_env signed_out 0 s
                       (ex_intro _ quiet_session _) eq_refl eq_refl))
  end.
  vm_compute. reflexivity.
Defined.

Lemma handleCreate_blank_origin_witness :
  exists req,
    requests (snd (run (world_of one_trip) (handleCreate default_env blank_origin_form)
                       blank_origin_form)) = [req]
    /\ body req = Some (jsq "{'origemNome':'','destinoNome':'Natal','descricao':null,'modoTransporte':'onibus'}").
Proof.
  destruct (handleCreate_blank_origin default_env (world_of one_trip) blank_origin_form
              ltac:(discriminate) eq_refl ltac:(discriminate) ltac:(discriminate))
    as (req & E & _ & Hb).
  exists req. split; assumption.
Defined.

(* ===================================================================== *)
(** ** Further properties of the token decoder and of the role set *)
(* ===================================================================== *)

Section DecodeMore.

Lemma decode_by_segment (fresh : nat) (t1 t2 : jstring) :
  t1 <> [] -> t2 <> [] ->
  payload_segment t1 = payload_segment t2 ->
  decodeJwtPayload fresh t1 = decodeJwtPayload fresh t2.
Proof.
  intros H1 H2 E. unfold decodeJwtPayload, decodeJwtPayload_try.
  unfold payload_segment in E. rewrite E.
  destruct t1; [congruence|]. destruct t2; [congruence|]. reflexivity.
Qed.

Lemma segment_of (h p s : jstring) :
  ~ In 46 h -> ~ In 46 p ->
  payload_segment (h ++ [46] ++ p ++ [46] ++ s) = Some p.
Proof. intros. unfold payload_segment. now apply split_second. Qed.

Lemma segment_of_two (h p : jstring) :
  ~ In 46 h -> ~ In 46 p -> payload_segment (h ++ [46] ++ p) = Some p.
Proof.
  intros Hh Hp. unfold payload_segment. simpl app.
  rewrite split_segment by assumption.
  assert (E : split 46 p = [p]).
  { clear Hh. induction p as [|c p IH]; [reflexivity|]. simpl.
    destruct (Z.eqb_spec c 46) as [->|_]; [simpl in Hp; tauto|].
    rewrite IH; [reflexivity|]. simpl in Hp. tauto. }
  rewrite E. reflexivity.
Qed.

Lemma normalize_idempotent (c : Z) : normalize_char (normalize_char c) = normalize_char c.
Proof.
  unfold normalize_char.
  destruct (c =? 45) eqn:E1; [reflexivity|].
  destruct (c =? 95) eqn:E2; [reflexivity|].
  now rewrite E1, E2.
Qed.

Lemma normalize_no_dot (p : jstring) : ~ In 46 p -> ~ In 46 (List.map normalize_char p).
Proof.
  intros Hp Hin. apply in_map_iff in Hin. destruct Hin as [c [Hc Hin]].
  unfold normalize_char in Hc.
  destruct (c =? 45) eqn:E1; [discriminate|].
  destruct (c =? 95) eqn:E2; [discriminate|]. subst. contradiction.
Qed.

End DecodeMore.

(** X1.  Only the payload segment of a token is read: two tokens with the
    same second segment, whatever their first segment and whatever follows
    the second dot (no third segment at all, or several more), decode to the
    same result with the same console output.  In particular the signature
    is never looked at. *)
Theorem decodeJwtPayload_reads_only_payload
  (fresh : nat) (h h' p s s' : jstring) :
  ~ In 46 h -> ~ In 46 h' -> ~ In 46 p ->
  decodeJwtPayload fresh (h ++ [46] ++ p ++ [46] ++ s)
  = decodeJwtPayload fresh (h' ++ [46] ++ p ++ [46] ++ s')
  /\ decodeJwtPayload fresh (h ++ [46] ++ p ++ [46] ++ s)
     = decodeJwtPayload fresh (h' ++ [46] ++ p).
Proof.
  intros Hh Hh' Hp. split; apply decode_by_segment;
    try (now destruct h); try (now destruct h').
  - now rewrite !segment_of.
  - now rewrite segment_of, segment_of_two.
Qed.

(** X2.  The two replacements make the decoder accept both alphabets: a
    payload segment spelled with [+] and [/] decodes exactly as the same
    segment spelled with [-] and [_]. *)
Theorem decodeJwtPayload_either_alphabet (fresh : nat) (h p s : jstring) :
  ~ In 46 h -> ~ In 46 p ->
  decodeJwtPayload fresh (h ++ [46] ++ replace_all 95 47 (replace_all 45 43 p) ++ [46] ++ s)
  = decodeJwtPayload fresh (h ++ [46] ++ p ++ [46] ++ s).
Proof.
  intros Hh Hp. rewrite replace_normalize.
  unfold decodeJwtPayload, decodeJwtPayload_try.
  pose proof (segment_of h p s Hh Hp) as E1.
  pose proof (segment_of h _ s Hh (normalize_no_dot p Hp)) as E2.
  unfold payload_segment in E1, E2. rewrite E1, E2.
  assert (N : forall t, str_falsy (h ++ [46] ++ t) = false) by (intros; now destruct h).
  rewrite !N.
  rewrite !replace_normalize, map_map.
  rewrite (map_ext _ _ normalize_idempotent).
  now destruct p.
Qed.

Section RoleMore.

Variable env : Env.

Lemma string_same (s : jstring) (y : value) :
  sameValueZero (VStr s) y = true <-> y = VStr s.
Proof.
  destruct y; simpl; split; try discriminate.
  - intros H. apply jstring_eqb_eq in H. now subst.
  - intros H. injection H as ->. apply jstring_eqb_refl.
Qed.

Lemma claim_key_not_index :
  forall key, In key (ROLE_CLAIM_KEYS default_env) ->
              array_index key = None /\ jstring_eqb key key_length = false.
Proof.
  intros key [<- | [<- | [<- | []]]]; split; vm_compute; reflexivity.
Qed.

End RoleMore.

(** X3.  Matching the administrator role is exact: [isAdmin] holds exactly
    when the string ["admin"] itself is an element of an array found under a
    recognized claim key in the decoded payload or in the user profile.  A
    string that differs from it, or an array nested one level deeper, does
    not count. *)
Theorem isAdmin_exact_string (env : Env) (payload user : value) :
  exists rs,
    roles env payload user = Normal rs
    /\ (isAdmin_of rs = true <-> in_role_union env payload user (VStr (js "admin"))).
Proof.
  destruct (extractRolesFromSource_spec env payload) as (l1 & E1 & H1).
  destruct (extractRolesFromSource_spec env user) as (l2 & E2 & H2).
  exists (Set_new (l1 ++ l2)). unfold roles. rewrite E1, E2. cbn [bind].
  split; [reflexivity|].
  unfold isAdmin_of, ADMIN_ROLE. rewrite Set_new_has. unfold in_role_union. split.
  - intros (y & Hy & Hs). apply string_same in Hs. subst y.
    rewrite in_app_iff, H1, H2 in Hy.
    destruct Hy as [(key & Hk & Hf) | (key & Hk & Hf)]; eauto 8.
  - intros (source & key & Hsrc & Hk & Hf).
    exists (VStr (js "admin")). split; [|apply sameValueZero_refl].
    rewrite in_app_iff, H1, H2. destruct Hsrc as [-> | ->]; eauto.
Qed.

(** X4.  With the default claim keys only an object contributes roles: a
    source that is a string, a number, a boolean or an array (a payload that
    is itself the array of roles, say) yields no role. *)
Theorem extractRolesFromSource_needs_object (source : value) :
  (forall ref props, source <> VObj ref props) ->
  extractRolesFromSource default_env source = Normal [].
Proof.
  intros Hn.
  destruct (extractRolesFromSource_spec default_env source) as ([|x l] & E & H);
    [exact E|].
  destruct (proj1 (H x) (or_introl eq_refl)) as (key & Hk & ref & arr & Hg & _).
  destruct (claim_key_not_index key Hk) as [Hi Hl].
  destruct source as [ | | b | n | s | r es | r ps]; cbn [getProp] in Hg;
    try (now destruct (Hn r ps));
    try rewrite Hi in Hg; try destruct (jstring_eqb key key_length);
    discriminate.
Qed.

(* ===================================================================== *)
(** ** Further properties of the handlers *)
(* ===================================================================== *)

Section HandlerMore.

Lemma nonempty_truthy (s : jstring) : s <> [] -> str_falsy s = false.
Proof. destruct s; [congruence | reflexivity]. Qed.

Lemma fields_pass (st : State) :
  origem st <> [] -> destino st <> [] -> modoTransporte st <> [] ->
  str_falsy (origem st) || str_falsy (destino st) || str_falsy (modoTransporte st) = false.
Proof. intros Ho Hd Hm. now rewrite !nonempty_truthy. Qed.

(** The filter of [handleDelete], when no trip of the list is [null] or
    [undefined]; otherwise reading [viagem.id] throws. *)
Lemma without_id_filter (id : value) (prev : list value) :
  Forall present prev ->
  without_id id prev = Normal (filter (id_differs id) prev).
Proof.
  induction 1 as [|v prev Hv _ IH]; [reflexivity|].
  cbn [without_id filter]. unfold id_differs at 1.
  destruct (getProp v (js "id")) as [vid|] eqn:E.
  - cbn [bind]. rewrite IH. cbn [bind]. now destruct (strictEquals vid id).
  - destruct v; discriminate.
Qed.

End HandlerMore.

(** X5.  [fetchViagens] never throws and sends at most one request, the GET
    of the list with the effective token.  It touches only the list, the
    loading flag and the error message: the token, the form and the markers
    of the other operations stay as they are.  When it has sent the request
    it ends with the loading flag off, and the list is changed only by a
    response with a status in 200-299 whose body reads as JSON. *)
Theorem fetchViagens_frame
  (env : Env) (w : World) (tok : jstring) (provided : option jstring) (s : State) :
  exists s' es,
    run w (fetchViagens env tok provided Return) s = (Normal s', es)
    /\ (es = [] /\ s' = s
        \/ es = [Requested (list_request env (nullish_or provided tok))]
           /\ loading s' = false)
    /\ token s' = token s
    /\ form_of s' = form_of s
    /\ submitting s' = submitting s
    /\ deletingId s' = deletingId s
    /\ (viagens s' = viagens s
        \/ exists res data,
             fetchReply w (list_request env (nullish_or provided tok)) = Resolved res
             /\ ok res = true /\ json res = Resolved data
             /\ viagens s' = if isArray data then elements data else []).
Proof.
  unfold fetchViagens, list_request.
  destruct (str_falsy (nullish_or provided tok)).
  { exists s, []. cbn. auto 10. }
  cbn [set run].
  destruct (fetchReply w _) as [res | err] eqn:Ew; cbn [run].
  - destruct (ok res) eqn:Eo; cbn [negb run].
    + destruct (json res) as [data | err] eqn:Ej; cbn [run].
      * eexists _, _. split; [reflexivity|]. cbn.
        split; [right; auto|]. repeat (split; [reflexivity|]).
        right. exists res, data. auto.
      * eexists _, _. split; [reflexivity|]. cbn. auto 10.
    + eexists _, _. split; [reflexivity|]. cbn. auto 10.
  - eexists _, _. split; [reflexivity|]. cbn. auto 10.
Qed.

(** X6.  The three failures of [fetchViagens] leave the list as it was and
    set the error message: a rejected [fetch] gives the message of the
    rejection; a status outside 200-299 gives [Erro ao carregar: ] and the
    status, without the body; a body that does not read as JSON gives the
    message of that failure. *)
Theorem fetchViagens_failure
  (env : Env) (w : World) (tok : jstring) (provided : option jstring) (s : State) :
  nullish_or provided tok <> [] ->
  (forall err,
     fetchReply w (list_request env (nullish_or provided tok)) = Rejected err ->
     exists s', fst (run w (fetchViagens env tok provided Return) s) = Normal s'
                /\ viagens s' = viagens s /\ error s' = Some (message err))
  /\ (forall res,
        fetchReply w (list_request env (nullish_or provided tok)) = Resolved res ->
        ok res = false ->
        exists s', fst (run w (fetchViagens env tok provided Return) s) = Normal s'
                   /\ viagens s' = viagens s
                   /\ error s' = Some (js "Erro ao carregar: " ++ decimal (status res)))
  /\ (forall res err,
        fetchReply w (list_request env (nullish_or provided tok)) = Resolved res ->
        ok res = true ->
        json res = Rejected err ->
        exists s', fst (run w (fetchViagens env tok provided Return) s) = Normal s'
                   /\ viagens s' = viagens s /\ error s' = Some (message err)).
Proof.
  intros Hne. unfold fetchViagens, list_request.
  rewrite (nonempty_truthy _ Hne). cbn [set run].
  split; [|split].
  - intros err ->. cbn [run fst]. eexists. split; [reflexivity|]. cbn. auto.
  - intros res -> ->. cbn [negb run fst]. eexists. split; [reflexivity|]. cbn. auto.
  - intros res err -> -> Hj. cbn [negb run]. rewrite Hj. cbn [run fst].
    eexists. split; [reflexivity|]. cbn. auto.
Qed.

(** X7.  On success [fetchViagens] replaces the list wholesale: with a
    response in 200-299 whose body is a JSON array, the list becomes the
    elements of that array, whatever it held before, and the error message
    is cleared. *)
Theorem fetchViagens_replaces_list
  (env : Env) (w : World) (tok : jstring) (provided : option jstring) (s : State)
  (res : Response) (ref : nat) (trips : list value) :
  nullish_or provided tok <> [] ->
  fetchReply w (list_request env (nullish_or provided tok)) = Resolved res ->
  ok res = true ->
  json res = Resolved (VArr ref trips) ->
  exists s',
    run w (fetchViagens env tok provided Return) s
    = (Normal s', [Requested (list_request env (nullish_or provided tok))])
    /\ viagens s' = trips /\ error s' = None /\ loading s' = false.
Proof.
  intros Hne Hw Hok Hj. unfold fetchViagens, list_request in *.
  rewrite (nonempty_truthy _ Hne). cbn [set run].
  rewrite Hw. cbn [run]. rewrite Hok. cbn [negb run]. rewrite Hj. cbn [run].
  eexists. split; [reflexivity|]. cbn. auto.
Qed.

(** X8.  When the access token cannot be obtained, the effect prints the
    diagnostic, sets the error message and stops there: no request is sent,
    and the token and the list keep their values. *)
Theorem effect_token_failure
  (env : Env) (w : World) (tok : jstring) (s : State) (err : JsError) :
  tokenReply w = Rejected err ->
  run w (effect env true tok) s
  = (Normal (setError (Some token_message) s), [Printed (js "Erro ao buscar token:") err]).
Proof.
  intros Hw. unfold effect, refreshToken. cbn [negb run]. rewrite Hw.
  cbn [run set]. unfold fetchViagens. cbn. now destruct (cancelledFlag w).
Qed.

(** X9.  When the access token arrives, the effect stores it in any case.
    It then requests the list, with that token and not with the token of the
    render, unless the effect was cleaned up meanwhile or the token is the
    empty string; in these two cases nothing is sent. *)
Theorem effect_loads_with_fresh_token
  (env : Env) (w : World) (tok accessToken : jstring) (s : State) :
  tokenReply w = Resolved accessToken ->
  (cancelledFlag w = true \/ accessToken = [] ->
   run w (effect env true tok) s = (Normal (setToken accessToken s), []))
  /\ (cancelledFlag w = false -> accessToken <> [] ->
      exists r es,
        run w (effect env true tok) s
        = (r, Requested (list_request env accessToken) :: es)
        /\ forall s', r = Normal s' -> token s' = accessToken).
Proof.
  intros Hw. unfold effect, refreshToken. cbn [negb run]. rewrite Hw. cbn [set run].
  split.
  - intros [-> | ->]; [reflexivity|]. now destruct (cancelledFlag w).
  - intros -> Hne. cbn [negb andb]. rewrite (nonempty_truthy _ Hne). cbn [negb].
    unfold fetchViagens, list_request. cbn [nullish_or].
    rewrite (nonempty_truthy _ Hne). cbn [set run].
    destruct (fetchReply w _) as [res | err]; cbn [run];
      [destruct (ok res); cbn [negb run]; [destruct (json res); cbn [run]|]|];
      (eexists _, _; split; [reflexivity|]; intros s' H; injection H as <-; reflexivity).
Qed.

(** X10.  A create the server accepts: with the three required fields not
    empty and a response in 200-299 whose body reads as the JSON value
    [created], [handleCreate] sends one POST with the token of the render,
    puts [created] at the head of the list, empties the four fields of the
    form, and ends with no error message and the submitting flag off. *)
Theorem handleCreate_success
  (env : Env) (w : World) (st s : State) (res : Response) (created : value) :
  origem st <> [] -> destino st <> [] -> modoTransporte st <> [] ->
  (forall req, fetchReply w req = Resolved res) ->
  ok res = true ->
  json res = Resolved created ->
  exists req s',
    run w (handleCreate env st) s = (Normal s', [Requested req])
    /\ method req = js "POST"
    /\ authorization req = js "Bearer " ++ token st
    /\ viagens s' = created :: viagens s
    /\ form_of s' = ([], [], [], [])
    /\ error s' = None
    /\ submitting s' = false
    /\ token s' = token s.
Proof.
  intros Ho Hd Hm Hw Hok Hj. unfold handleCreate.
  rewrite (fields_pass st Ho Hd Hm). cbv zeta. cbn [set run].
  rewrite Hw. cbn [run]. rewrite Hok. cbn [negb run]. rewrite Hj. cbn [run].
  eexists _, _. split; [reflexivity|]. cbn. auto 10.
Qed.

(** X11.  A create that fails keeps what the user typed and the list: the
    form and the list are as before, the submitting flag is off, and the
    error message is the message of a rejected [fetch], or [Erro ao criar: ]
    with the status and the body text for a status outside 200-299, or the
    message of the failure for a response in 200-299 whose body does not
    read as JSON; in this last case the server has accepted the trip and the
    list does not show it. *)
Theorem handleCreate_failure
  (env : Env) (w : World) (st s : State) :
  origem st <> [] -> destino st <> [] -> modoTransporte st <> [] ->
  exists req,
    snd (run w (handleCreate env st) s) = [Requested req]
    /\ (forall m,
          fetchReply w req = Rejected {| message := m |}
          \/ (exists res t,
                fetchReply w req = Resolved res /\ ok res = false
                /\ text res = Resolved t
                /\ m = js "Erro ao criar: " ++ decimal (status res) ++ js " " ++ t)
          \/ (exists res,
                fetchReply w req = Resolved res /\ ok res = true
                /\ json res = Rejected {| message := m |}) ->
          exists s',
            fst (run w (handleCreate env st) s) = Normal s'
            /\ error s' = Some m
            /\ viagens s' = viagens s
            /\ form_of s' = form_of s
            /\ submitting s' = false).
Proof.
  intros Ho Hd Hm. unfold handleCreate.
  rewrite (fields_pass st Ho Hd Hm). cbv zeta. cbn [set run].
  eexists. split.
  - destruct (fetchReply w _) as [res | err]; cbn [run snd]; [|reflexivity].
    destruct (ok res); cbn [negb run];
      [destruct (json res) | destruct (text res)]; reflexivity.
  - intros m [Hw | [(res & t & Hw & Hok & Ht & ->) | (res & Hw & Hok & Hj)]];
      rewrite Hw; cbn [run].
    + eexists. split; [reflexivity|]. cbn. auto.
    + rewrite Hok. cbn [negb run]. rewrite Ht. cbn [run].
      eexists. split; [reflexivity|]. cbn. auto.
    + rewrite Hok. cbn [negb run]. rewrite Hj. cbn [run].
      eexists. split; [reflexivity|]. cbn. auto.
Qed.

(** X12.  A delete the server accepts: for an administrator and a response
    in 200-299, whose body is not read, [handleDelete] removes from the list
    exactly the trips whose [id] is strictly equal to the identifier given,
    keeps the others in their order, and ends with no error message and no
    trip marked as being deleted.  This needs a list without [null] or
    [undefined] entries, as every list the page has rendered is. *)
Theorem handleDelete_success
  (env : Env) (w : World) (tok : jstring) (id : value) (s : State) (res : Response) :
  (forall req, fetchReply w req = Resolved res) ->
  ok res = true ->
  Forall present (viagens s) ->
  exists req s',
    run w (handleDelete env true tok id) s = (Normal s', [Requested req])
    /\ method req = js "DELETE" /\ url_id req = Some id
    /\ viagens s' = filter (id_differs id) (viagens s)
    /\ deletingId s' = VNull
    /\ error s' = None
    /\ token s' = token s
    /\ form_of s' = form_of s.
Proof.
  intros Hw Hok Hp. unfold handleDelete. cbn [negb set run].
  rewrite Hw. cbn [run]. rewrite Hok. cbn [negb run setDeletingId setError viagens].
  rewrite (without_id_filter id _ Hp). cbn [bind run].
  eexists _, _. split; [reflexivity|]. cbn. auto 10.
Qed.

(** X13.  Whatever the server answers, [handleDelete] for an administrator
    sends exactly one request, and when it ends normally no trip is marked
    as being deleted, whatever the mark was before: the end of one delete
    clears the mark of any other delete still in flight.  The token, the
    form, the loading flag and the submitting flag are never touched. *)
Theorem handleDelete_frame
  (env : Env) (w : World) (tok : jstring) (id : value) (s : State) :
  exists req,
    snd (run w (handleDelete env true tok id) s) = [Requested req]
    /\ forall s',
         fst (run w (handleDelete env true tok id) s) = Normal s' ->
         deletingId s' = VNull
         /\ token s' = token s
         /\ form_of s' = form_of s
         /\ loading s' = loading s
         /\ submitting s' = submitting s.
Proof.
  unfold handleDelete. cbn [negb set run]. eexists. split.
  - destruct (fetchReply w _) as [res | err]; cbn [run snd]; [|reflexivity].
    destruct (ok res); cbn [negb run setDeletingId setError viagens].
    + destruct (without_id id (viagens s)); reflexivity.
    + destruct (text res); reflexivity.
  - intros s'.
    destruct (fetchReply w _) as [res | err]; cbn [run fst].
    + destruct (ok res); cbn [negb run setDeletingId setError viagens].
      * destruct (without_id id (viagens s)); cbn [bind run fst];
          [|discriminate].
        intros H; injection H as <-. cbn. auto.
      * destruct (text res); cbn [run fst]; intros H; injection H as <-; cbn; auto.
    + intros H; injection H as <-. cbn. auto.
Qed.

(** X14.  Deleting undoes creating: when the created trip has the identifier
    [id], [id] is strictly equal to itself (it is not NaN) and no trip of the
    list had that identifier, the updater of [handleDelete] for [id] applied
    to the list the updater of [handleCreate] has built gives the list back. *)
Theorem delete_undoes_create (id created : value) (prev : list value) :
  getProp created (js "id") = Normal id ->
  strictEquals id id = true ->
  Forall (fun viagem => id_differs id viagem = true) prev ->
  without_id id (created :: prev) = Normal prev.
Proof.
  intros Hc Hid Hprev.
  assert (Hp : Forall present (created :: prev)).
  { constructor.
    - unfold present. destruct created; try reflexivity; discriminate.
    - revert Hprev. apply Forall_impl. intros v Hv. unfold present, id_differs in *.
      destruct v; try reflexivity; discriminate. }
  rewrite (without_id_filter id _ Hp). cbn [filter]. unfold id_differs at 1.
  rewrite Hc, Hid. cbn [negb]. f_equal.
  clear Hp. induction Hprev as [|v prev Hv _ IH]; [reflexivity|].
  cbn [filter]. now rewrite Hv, IH.
Qed.

(* ===================================================================== *)
(** ** Further properties of the view *)
(* ===================================================================== *)

Section RenderMore.

Variable env : Env.

Lemma decode_normal (fresh : nat) (t : jstring) :
  exists v, fst (decodeJwtPayload fresh t) = Normal v.
Proof.
  unfold decodeJwtPayload. destruct (str_falsy t); [now exists VNull|].
  destruct (decodeJwtPayload_try fresh t) as [v|e]; [now exists v | now exists VNull].
Qed.

(** Computing [isAdmin] never throws. *)
Lemma isAdmin_normal (fresh : nat) (s : State) (a : Auth) :
  exists b, fst (isAdmin env fresh s a) = Normal b.
Proof.
  unfold isAdmin. destruct (decode_normal fresh (token s)) as [v Ev].
  destruct (decodeJwtPayload fresh (token s)) as [d out]. cbn [fst] in *. subst d.
  cbn [bind]. unfold roles.
  destruct (extractRolesFromSource_spec env v) as (l1 & -> & _).
  destruct (extractRolesFromSource_spec env (user a)) as (l2 & -> & _).
  cbn [bind]. eauto.
Qed.

Lemma getProp_throws (v : value) (key : jstring) (e : exn) :
  getProp v key = Throw e -> e = TypeError /\ is_nullish v = true.
Proof.
  destruct v; cbn [getProp]; try discriminate;
    try (intros H; injection H as <-; auto);
    destruct (array_index key); discriminate.
Qed.

Lemma render_row_throws (admin : bool) (deleting viagem : value) (e : exn) :
  render_row admin deleting viagem = Throw e -> e = TypeError.
Proof.
  unfold render_row.
  destruct (getProp viagem (js "id")) eqn:E1; cbn [bind];
    [|intros H; injection H as <-; exact (proj1 (getProp_throws _ _ _ E1))].
  destruct (getProp viagem (js "origemNome")) eqn:E2; cbn [bind];
    [|intros H; injection H as <-; exact (proj1 (getProp_throws _ _ _ E2))].
  destruct (getProp viagem (js "destinoNome")) eqn:E3; cbn [bind];
    [|intros H; injection H as <-; exact (proj1 (getProp_throws _ _ _ E3))].
  destruct (getProp viagem (js "modoTransporte")) eqn:E4; cbn [bind];
    [|intros H; injection H as <-; exact (proj1 (getProp_throws _ _ _ E4))].
  destruct (getProp viagem (js "descricao")) as [d|] eqn:E5; cbn [bind];
    [|intros H; injection H as <-; exact (proj1 (getProp_throws _ _ _ E5))].
  destruct d; cbn; try discriminate; intros H; injection H as <-; reflexivity.
Qed.

Lemma render_row_null (admin : bool) (deleting viagem : value) :
  is_nullish viagem = true -> render_row admin deleting viagem = Throw TypeError.
Proof. destruct viagem; try discriminate; reflexivity. Qed.

Lemma mapM_throws {A B} (f : A -> completion B) (l : list A) (a : A) :
  (forall x e, f x = Throw e -> e = TypeError) ->
  In a l -> f a = Throw TypeError -> mapM f l = Throw TypeError.
Proof.
  intros Hf. induction l as [|x l IH]; [intros []|].
  intros Hin Ha. cbn [mapM].
  destruct (f x) as [b|e] eqn:Ex; cbn [bind].
  - destruct Hin as [-> | Hin]; [congruence|].
    now rewrite (IH Hin Ha).
  - now rewrite (Hf x e Ex).
Qed.

Lemma mapM_nth {A B} (f : A -> completion B) (l : list A) (bs : list B) :
  mapM f l = Normal bs ->
  List.length bs = List.length l
  /\ forall i a b, nth_error l i = Some a -> nth_error bs i = Some b -> f a = Normal b.
Proof.
  revert bs. induction l as [|x l IH]; cbn [mapM]; intros bs H.
  - injection H as <-. split; [reflexivity|]. intros [|i]; discriminate.
  - destruct (f x) as [b0|] eqn:Ex; [|discriminate]. cbn [bind] in H.
    destruct (mapM f l) as [bs0|]; [|discriminate]. cbn [bind] in H.
    injection H as <-. destruct (IH bs0 eq_refl) as [Hlen Hnth].
    split; [cbn; now rewrite Hlen|].
    intros [|i] a b; cbn [nth_error].
    + intros Ha Hb. injection Ha as <-. injection Hb as <-. exact Ex.
    + apply Hnth.
Qed.

Lemma render_row_fields (admin : bool) (deleting viagem : value) (r : Row) :
  render_row admin deleting viagem = Normal r ->
  getProp viagem (js "id") = Normal (row_key r)
  /\ row_delete r =
     if admin
     then Some {| del_target := row_key r;
                  del_disabled := strictEquals deleting (row_key r) |}
     else None.
Proof.
  unfold render_row.
  destruct (getProp viagem (js "id")); [|discriminate].
  destruct (getProp viagem (js "origemNome")); [|discriminate].
  destruct (getProp viagem (js "destinoNome")); [|discriminate].
  destruct (getProp viagem (js "modoTransporte")); [|discriminate].
  destruct (getProp viagem (js "descricao")) as [d|]; [|discriminate].
  cbn [bind]. destruct (descricao_cell d); [|discriminate].
  cbn [bind]. intros H; injection H as <-. cbn. auto.
Qed.

Lemma null_is_null (v : value) : strictEquals VNull v = true <-> v = VNull.
Proof. destruct v; cbn; split; congruence. Qed.

End RenderMore.

(** X15.  While the identity provider is loading, the component shows the
    loading view, and otherwise, for a user who is not authenticated, the
    login view: in both cases whatever the state holds (a token, a list, a
    list with entries that cannot be rendered) and without throwing. *)
Theorem render_gates_the_page (env : Env) (fresh : nat) (st : State) (auth : Auth) :
  (isLoading auth = true -> render env fresh st auth = Normal AuthLoadingView)
  /\ (isLoading auth = false -> isAuthenticated auth = false ->
      render env fresh st auth = Normal LoginView).
Proof.
  unfold render. destruct (isAdmin_normal env fresh st auth) as [b ->]. cbn [bind].
  split.
  - intros ->. reflexivity.
  - intros -> ->. reflexivity.
Qed.

(** X16.  [fetchViagens] accepts any JSON array as the list, and the page
    cannot render a list that holds [null] (or [undefined]): after a response
    in 200-299 whose array has such an entry, the next render of the page
    throws a TypeError. *)
Theorem null_trip_breaks_page
  (env : Env) (w : World) (tok : jstring) (provided : option jstring) (s : State)
  (res : Response) (ref : nat) (trips : list value) (bad : value)
  (fresh : nat) (auth : Auth) :
  nullish_or provided tok <> [] ->
  fetchReply w (list_request env (nullish_or provided tok)) = Resolved res ->
  ok res = true ->
  json res = Resolved (VArr ref trips) ->
  In bad trips -> is_nullish bad = true ->
  isLoading auth = false -> isAuthenticated auth = true ->
  exists s',
    fst (run w (fetchViagens env tok provided Return) s) = Normal s'
    /\ viagens s' = trips
    /\ render env fresh s' auth = Throw TypeError.
Proof.
  intros Hne Hw Hok Hj Hin Hbad Hl Ha. unfold fetchViagens, list_request in *.
  rewrite (nonempty_truthy _ Hne). cbn [set run].
  rewrite Hw. cbn [run]. rewrite Hok. cbn [negb run]. rewrite Hj. cbn [run fst].
  eexists. split; [reflexivity|]. split; [reflexivity|].
  unfold render.
  match goal with |- context [isAdmin env fresh ?s0 auth] =>
    destruct (isAdmin_normal env fresh s0 auth) as [b ->] end.
  cbn [bind]. rewrite Hl, Ha. cbn [negb].
  destruct (getProp (user auth) (js "picture")) as [x1|e1] eqn:E1; cbn [bind];
    [|now rewrite (proj1 (getProp_throws _ _ _ E1))].
  destruct (getProp (user auth) (js "name")) as [x2|e2] eqn:E2; cbn [bind];
    [|now rewrite (proj1 (getProp_throws _ _ _ E2))].
  destruct (getProp (user auth) (js "email")) as [x3|e3] eqn:E3; cbn [bind];
    [|now rewrite (proj1 (getProp_throws _ _ _ E3))].
  cbn [isArray elements loading viagens deletingId setLoading setViagens setError].
  destruct trips as [|t0 trips]; [destruct Hin|].
  cbn [List.length Nat.eqb].
  rewrite (mapM_throws (render_row b (deletingId s)) (t0 :: trips) bad
             (render_row_throws b (deletingId s)) Hin
             (render_row_null b (deletingId s) bad Hbad)).
  reflexivity.
Qed.

(** X17.  What the page shows of the list.  The counter is the length of the
    list, also while the list is hidden by the loading notice.  The table has
    one row per trip, in the order of the list, keyed by the trip's [id]; a
    delete button targets the [id] of the trip of its row and is disabled
    exactly when that [id] is strictly equal to the marked one.  So, with no
    trip marked ([null]), the button of a trip whose [id] is [null] is
    disabled and every other one is enabled. *)
Theorem render_table
  (env : Env) (fresh : nat) (st : State) (auth : Auth) (p : Page) :
  render env fresh st auth = Normal (PageView p) ->
  counter p = List.length (viagens st)
  /\ (loading st = true -> listing p = ListLoading)
  /\ (loading st = false -> viagens st = [] -> listing p = ListEmpty)
  /\ (loading st = false -> viagens st <> [] ->
      exists hdr rows,
        listing p = ListTable hdr rows
        /\ List.length rows = List.length (viagens st)
        /\ forall i viagem row,
             nth_error (viagens st) i = Some viagem ->
             nth_error rows i = Some row ->
             getProp viagem (js "id") = Normal (row_key row)
             /\ forall b, row_delete row = Some b ->
                  del_target b = row_key row
                  /\ del_disabled b = strictEquals (deletingId st) (row_key row)
                  /\ (deletingId st = VNull ->
                      (del_disabled b = true <-> row_key row = VNull))).
Proof.
  unfold render. destruct (isAdmin_normal env fresh st auth) as [admin ->]. cbn [bind].
  destruct (isLoading auth); [discriminate|].
  destruct (isAuthenticated auth); [|discriminate]. cbn [negb].
  destruct (getProp (user auth) (js "picture")); [|discriminate].
  destruct (getProp (user auth) (js "name")); [|discriminate].
  destruct (getProp (user auth) (js "email")); [|discriminate].
  cbn [bind].
  destruct (loading st) eqn:El.
  - cbn [bind]. intros H; injection H as <-. cbn.
    split; [reflexivity|]. split; [reflexivity|]. split; discriminate.
  - destruct (viagens st) as [|t0 trips] eqn:Ev.
    + cbn. intros H; injection H as <-. cbn.
      split; [reflexivity|]. split; [discriminate|]. split; [reflexivity|].
      intros _ H. congruence.
    + cbn [List.length Nat.eqb].
      destruct (mapM (render_row admin (deletingId st)) (t0 :: trips)) as [rows|] eqn:Er;
        [|discriminate].
      cbn [bind]. intros H; injection H as <-. cbn [counter listing].
      split; [reflexivity|]. split; [discriminate|]. split; [discriminate|].
      intros _ _. exists admin, rows. split; [reflexivity|].
      destruct (mapM_nth _ _ _ Er) as [Hlen Hnth]. split; [exact Hlen|].
      intros i viagem row Hv Hr.
      destruct (render_row_fields _ _ _ _ (Hnth i viagem row Hv Hr)) as [Hid Hdel].
      split; [exact Hid|].
      intros b Hb. rewrite Hdel in Hb. destruct admin; [|discriminate].
      injection Hb as <-. cbn. split; [reflexivity|]. split; [reflexivity|].
      intros ->. apply null_is_null.
Qed.

(* ===================================================================== *)
(** ** Further properties of the component in the event loop *)
(* ===================================================================== *)

Section EventLoopMore.

Variable env : Env.

(** With a user profile, a render hidden behind the loading notice cannot
    throw. *)
Lemma render_while_loading (fresh : nat) (s : State) (a : Auth) :
  is_nullish (user a) = false -> loading s = true ->
  exists v, render env fresh s a = Normal v.
Proof.
  intros Hu Hl. unfold render.
  destruct (isAdmin_normal env fresh s a) as [b ->]. cbn [bind].
  destruct (isLoading a); [eexists; reflexivity|].
  destruct (isAuthenticated a); [|eexists; reflexivity]. cbn [negb].
  destruct (getProp_present (user a) (js "picture") Hu) as [x1 ->].
  destruct (getProp_present (user a) (js "name") Hu) as [x2 ->].
  destruct (getProp_present (user a) (js "email") Hu) as [x3 ->].
  cbn [bind]. rewrite Hl. cbn [bind]. eexists; reflexivity.
Qed.

(** A render for a user who is not authenticated cannot throw. *)
Lemma render_signed_out (fresh : nat) (s : State) (a : Auth) :
  isAuthenticated a = false -> exists v, render env fresh s a = Normal v.
Proof.
  intros Ha. unfold render.
  destruct (isAdmin_normal env fresh s a) as [b ->]. cbn [bind].
  destruct (isLoading a); [eexists; reflexivity|].
  rewrite Ha. eexists; reflexivity.
Qed.

(** The effect runs for an authenticated user: the token is asked for. *)
Lemma step_effect_signed_in (sys : Sys) (v : View) :
  effect_due sys = true ->
  render env (heap sys) (st sys) (auth sys) = Normal v ->
  isAuthenticated (auth sys) = true ->
  step env sys RunEffect
  = Some {| st := st sys; auth := auth sys; instance := S (instance sys);
            effect_due := false;
            pending := pending sys
                       ++ [{| owner := S (instance sys);
                              rest_of := effect env true (token (st sys)) |}];
            heap := heap sys; log := log sys ++ [] |}.
Proof.
  intros Hd Hr Ha. cbn [step]. rewrite Hd, Hr, Ha. unfold proceed.
  cbn [st auth instance effect_due pending heap log effect negb refreshToken advance
       is_return]. now rewrite jstring_eqb_refl.
Qed.

(** The effect runs for a user who is not authenticated: the two resets. *)
Lemma step_effect_signed_out (sys : Sys) :
  effect_due sys = true ->
  isAuthenticated (auth sys) = false ->
  step env sys RunEffect
  = Some {| st := setViagens (fun _ => []) (setToken [] (st sys));
            auth := auth sys; instance := S (instance sys);
            effect_due := negb (jstring_eqb (token (st sys)) []);
            pending := pending sys;
            heap := heap sys; log := log sys ++ [] |}.
Proof.
  intros Hd Ha. cbn [step]. rewrite Hd.
  destruct (render_signed_out (heap sys) (st sys) (auth sys) Ha) as [v ->].
  rewrite Ha. unfold proceed. rewrite effect_signed_out. reflexivity.
Qed.

(** The token arrives for the current instance of the effect: it is stored
    and the list is requested with it. *)
Lemma step_token_arrives (sys : Sys) (i : nat) (tok accessToken : jstring) :
  nth_error (pending sys) i
  = Some {| owner := instance sys; rest_of := effect env true tok |} ->
  accessToken <> [] ->
  exists k,
    step env sys (Settle i (TokenSettled (Resolved accessToken)))
    = Some {| st := setError None (setLoading true (setToken accessToken (st sys)));
              auth := auth sys; instance := instance sys;
              effect_due := effect_due sys
                            || negb (jstring_eqb (token (st sys)) accessToken);
              pending := remove_nth i (pending sys)
                         ++ [{| owner := instance sys;
                                rest_of := AwaitFetch (list_request env accessToken) k |}];
              heap := heap sys;
              log := log sys ++ [Requested (list_request env accessToken)] |}.
Proof.
  intros Hn Hne. cbn [step]. rewrite Hn.
  cbn [rest_of owner effect negb refreshToken resume]. unfold proceed.
  rewrite Nat.eqb_refl. cbn [negb set advance bind andb].
  rewrite (nonempty_truthy _ Hne). cbn [negb].
  unfold fetchViagens. cbn [nullish_or]. rewrite (nonempty_truthy _ Hne).
  cbn [set advance bind is_return]. eexists. reflexivity.
Qed.

(** The token request of an earlier instance of the effect settles: the
    token is stored, or the failure reported, and nothing is requested. *)
Lemma step_token_cancelled (sys : Sys) (own : nat) (tok : jstring) (r : settled jstring) :
  pending sys = [{| owner := own; rest_of := effect env true tok |}] ->
  own <> instance sys ->
  exists s' es,
    step env sys (Settle 0 (TokenSettled r))
    = Some {| st := s'; auth := auth sys; instance := instance sys;
              effect_due := effect_due sys || negb (jstring_eqb (token (st sys)) (token s'));
              pending := [];
              heap := heap sys;
              log := log sys ++ es |}
    /\ requests es = []
    /\ viagens s' = viagens (st sys).
Proof.
  intros Hp Hown. cbn [step]. rewrite Hp.
  cbn [nth_error rest_of owner effect negb refreshToken resume remove_nth]. unfold proceed.
  apply Nat.eqb_neq in Hown. rewrite Hown.
  destruct r as [accessToken | err]; cbn [negb set advance bind andb is_return].
  - eexists _, _. split; [reflexivity|]. split; reflexivity.
  - eexists _, _. split; [reflexivity|]. split; reflexivity.
Qed.

Lemma requests_app (a b : list event) : requests (a ++ b) = requests a ++ requests b.
Proof. unfold requests. apply flat_map_app. Qed.

Lemma step_auth_changed (sys : Sys) (a' : Auth) :
  step env sys (AuthChanged a')
  = Some {| st := st sys; auth := a'; instance := instance sys;
            effect_due := effect_due sys
                          || negb (Bool.eqb (isAuthenticated (auth sys)) (isAuthenticated a'));
            pending := pending sys; heap := heap sys; log := log sys |}.
Proof. reflexivity. Qed.

End EventLoopMore.

(** X18.  The first load requests the list twice.  For an authenticated user
    the effect asks for the token and, when it arrives, stores it and
    requests the list; storing a token that differs from the stored one
    rebuilds [fetchViagens], a dependency of the effect, so the effect runs
    again, asks for the token again and requests the list a second time
    while the first request is still in flight. *)
Theorem first_load_requests_twice
  (env : Env) (sys : Sys) (accessToken : jstring) (view : View) :
  isAuthenticated (auth sys) = true ->
  is_nullish (user (auth sys)) = false ->
  effect_due sys = true ->
  pending sys = [] ->
  render env (heap sys) (st sys) (auth sys) = Normal view ->
  accessToken <> [] ->
  token (st sys) <> accessToken ->
  exists sys',
    steps env sys [RunEffect;
                   Settle 0 (TokenSettled (Resolved accessToken));
                   RunEffect;
                   Settle 1 (TokenSettled (Resolved accessToken))] = Some sys'
    /\ log sys' = log sys ++ [Requested (list_request env accessToken);
                              Requested (list_request env accessToken)]
    /\ List.length (pending sys') = 2%nat
    /\ token (st sys') = accessToken.
Proof.
  intros Ha Hu Hdue Hp Hr Hne Htok.
  assert (Hneq : jstring_eqb (token (st sys)) accessToken = false).
  { destruct (jstring_eqb (token (st sys)) accessToken) eqn:E; [|reflexivity].
    apply jstring_eqb_eq in E. contradiction. }
  cbn [steps]. rewrite (step_effect_signed_in env sys view Hdue Hr Ha), Hp.
  cbv beta iota.
  match goal with |- context [step env ?s1 (Settle 0%nat _)] =>
    pose proof (step_token_arrives env s1 0 (token (st sys)) accessToken) as X end.
  specialize (X eq_refl Hne). destruct X as [k1 E1]. rewrite E1. clear E1.
  cbv beta iota.
  cbn [st auth instance effect_due pending heap log remove_nth app orb].
  rewrite Hneq. cbn [negb].
  match goal with |- context [step env ?s2 RunEffect] =>
    destruct (render_while_loading env (heap s2) (st s2) (auth s2) Hu eq_refl) as [v2 Hv2];
    rewrite (step_effect_signed_in env s2 v2 eq_refl Hv2 Ha) end.
  cbv beta iota.
  cbn [st auth instance effect_due pending heap log app].
  match goal with |- context [step env ?s3 (Settle 1%nat _)] =>
    pose proof (step_token_arrives env s3 1 accessToken accessToken) as X end.
  specialize (X eq_refl Hne). destruct X as [k2 E2]. rewrite E2. clear E2.
  cbv beta iota.
  eexists. split; [reflexivity|].
  cbn [st auth instance effect_due pending heap log remove_nth app List.length].
  split; [|split; reflexivity].
  rewrite !app_nil_r, <- app_assoc. reflexivity.
Qed.

(** X19.  A sign-out while the token is being asked for sends nothing: when
    the effect has run for the new status and the token request of the
    earlier instance then settles, whether with a token or with a failure,
    no request is sent, nothing stays suspended and the list stays empty; the
    token is empty too, or else the effect is due and its next run empties
    it. *)
Theorem sign_out_while_token_is_asked
  (env : Env) (sys : Sys) (view : View) (a' : Auth) (r : settled jstring) :
  isAuthenticated (auth sys) = true ->
  effect_due sys = true ->
  pending sys = [] ->
  render env (heap sys) (st sys) (auth sys) = Normal view ->
  isAuthenticated a' = false ->
  exists sys',
    steps env sys [RunEffect; AuthChanged a'; RunEffect; Settle 0 (TokenSettled r)]
    = Some sys'
    /\ requests (log sys') = requests (log sys)
    /\ pending sys' = []
    /\ viagens (st sys') = []
    /\ (effect_due sys' = false -> token (st sys') = []).
Proof.
  intros Ha Hdue Hp Hr Ha'.
  cbn [steps]. rewrite (step_effect_signed_in env sys view Hdue Hr Ha), Hp.
  cbv beta iota. rewrite step_auth_changed. cbv beta iota.
  cbn [st auth instance effect_due pending heap log app].
  rewrite Ha, Ha'. cbn [Bool.eqb negb orb].
  match goal with |- context [step env ?s2 RunEffect] =>
    rewrite (step_effect_signed_out env s2 eq_refl Ha') end.
  cbv beta iota.
  cbn [st auth instance effect_due pending heap log].
  match goal with |- context [step env ?s3 (Settle 0%nat _)] =>
    pose proof (step_token_cancelled env s3 (S (instance sys)) (token (st sys)) r) as X
  end.
  specialize (X eq_refl). destruct X as (s' & es & E3 & Hes & Hv).
  { cbn. lia. }
  rewrite E3. clear E3.
  cbv beta iota.
  eexists. split; [reflexivity|].
  cbn [st auth instance effect_due pending heap log] in *.
  split; [|split; [reflexivity|split]].
  - rewrite !requests_app, Hes. cbn [requests flat_map]. now rewrite !app_nil_r.
  - exact Hv.
  - intros Hd. apply orb_false_iff in Hd. destruct Hd as [_ Hd].
    apply negb_false_iff, jstring_eqb_eq in Hd. cbn in Hd. now rewrite <- Hd.
Qed.

Section GuardFacts.

Variable env : Env.

Lemma page_of_render (sys : Sys) (p : Page) :
  page_of env sys = Some p ->
  render env (heap sys) (st sys) (auth sys) = Normal (PageView p).
Proof.
  unfold page_of.
  destruct (render env (heap sys) (st sys) (auth sys)) as [[| |q]|]; try discriminate.
  intros H; injection H as ->. reflexivity.
Qed.

Lemma table_not_loading (fresh : nat) (s : State) (a : Auth) (p : Page)
      (hdr : bool) (rows : list Row) :
  render env fresh s a = Normal (PageView p) ->
  listing p = ListTable hdr rows -> loading s = false.
Proof.
  unfold render. destruct (fst (isAdmin env fresh s a)); [|discriminate]. cbn [bind].
  destruct (isLoading a); [discriminate|].
  destruct (isAuthenticated a); [|discriminate]. cbn [negb].
  destruct (getProp (user a) (js "picture")); [|discriminate].
  destruct (getProp (user a) (js "name")); [|discriminate].
  destruct (getProp (user a) (js "email")); [|discriminate].
  cbn [bind]. destruct (loading s); [|reflexivity].
  cbn [bind]. intros H; injection H as <-. discriminate.
Qed.

Lemma delete_button_row (view : View) (i : nat) (b : DeleteButton) :
  nth_error (delete_buttons view) i = Some b ->
  exists p hdr rows r,
    view = PageView p /\ listing p = ListTable hdr rows
    /\ In r rows /\ row_delete r = Some b.
Proof.
  intros H. apply nth_error_In in H.
  destruct view as [| |p]; try contradiction. cbn [delete_buttons] in H.
  destruct (listing p) as [| |hdr rows] eqn:El; try contradiction.
  apply in_flat_map in H. destruct H as (r & Hr & Hb).
  exists p, hdr, rows, r. repeat split; auto.
  destruct (row_delete r); [|contradiction]. destruct Hb as [-> | []]. reflexivity.
Qed.

End GuardFacts.

(** X20.  What the page lets the user start.  A submit is possible only on
    the page of an authenticated user and while no create is in flight; a
    reload only there and while the list is not loading; a click on a delete
    button only there, for an administrator, with the table shown, and on a
    button that is not disabled. *)
Theorem user_actions_need_the_page (env : Env) (sys sys' : Sys) :
  (step env sys Submit = Some sys' ->
   isAuthenticated (auth sys) = true /\ isLoading (auth sys) = false
   /\ submitting (st sys) = false)
  /\ (step env sys Reload = Some sys' ->
      isAuthenticated (auth sys) = true /\ isLoading (auth sys) = false
      /\ loading (st sys) = false)
  /\ (forall i, step env sys (ClickDelete i) = Some sys' ->
      isAuthenticated (auth sys) = true /\ isLoading (auth sys) = false
      /\ loading (st sys) = false
      /\ fst (isAdmin env (heap sys) (st sys) (auth sys)) = Normal true
      /\ exists view b,
           render env (heap sys) (st sys) (auth sys) = Normal view
           /\ nth_error (delete_buttons view) i = Some b
           /\ del_disabled b = false).
Proof.
  destruct (isAdmin_normal env (heap sys) (st sys) (auth sys)) as [admin Hadm].
  split; [|split].
  - cbn [step]. destruct (page_of env sys) as [p|] eqn:Ep; [|discriminate].
    apply page_of_render in Ep.
    destruct (render_page env _ _ _ _ p Hadm Ep) as (Ha & Hl & _ & _ & Hs & _).
    rewrite Hs. destruct (submitting (st sys)); [discriminate|]. auto.
  - cbn [step]. destruct (page_of env sys) as [p|] eqn:Ep; [|discriminate].
    apply page_of_render in Ep.
    destruct (render_page env _ _ _ _ p Hadm Ep) as (Ha & Hl & _ & Hr & _ & _).
    rewrite Hr. destruct (loading (st sys)); [discriminate|]. auto.
  - intros i. cbn [step].
    destruct (render env (heap sys) (st sys) (auth sys)) as [view|] eqn:Er; [|discriminate].
    rewrite Hadm.
    destruct (nth_error (delete_buttons view) i) as [b|] eqn:Eb; [|discriminate].
    destruct (del_disabled b) eqn:Ed; [discriminate|]. intros _.
    destruct (delete_button_row view i b Eb) as (p & hdr & rows & r & -> & El & Hr & Hb).
    destruct (render_page env _ _ _ _ p Hadm Er) as (Ha & Hl & _ & _ & _ & Hrows).
    destruct (Hrows hdr rows El) as [_ Hrow].
    assert (admin = true) as -> by (apply (Hrow r Hr); congruence).
    repeat split; auto.
    + exact (table_not_loading env _ _ _ _ _ _ Er El).
    + eauto.
Qed.

(* ===================================================================== *)
(** ** The further properties on the sample data *)
(* ===================================================================== *)

Lemma decodeJwtPayload_reads_only_payload_witness :
  decodeJwtPayload 0 sample_token
  = decodeJwtPayload 0 (js "x" ++ [46] ++ b64url_encode false (utf8_encode sample_claims)
                        ++ [46] ++ js "forged.and.more")
  /\ decodeJwtPayload 0 sample_token
     = decodeJwtPayload 0 (js "x" ++ [46] ++ b64url_encode false (utf8_encode sample_claims)).
Proof.
  apply (decodeJwtPayload_reads_only_payload 0 sample_header (js "x")
           (b64url_encode false (utf8_encode sample_claims)) (js "c2ln")
           (js "forged.and.more"));
    apply no_dot_check; vm_compute; reflexivity.
Defined.

Lemma decodeJwtPayload_either_alphabet_witness :
  decodeJwtPayload 0 (js "h.eyJhIjoiPz8/In0.s") = decodeJwtPayload 0 (js "h.eyJhIjoiPz8_In0.s")
  /\ decodeJwtPayload 0 (js "h.eyJhIjoiPz8_In0.s")
     = (Normal (VObj 0 [(js "a", VStr (js "???"))]), []).
Proof.
  split; [|vm_compute; reflexivity].
  apply (decodeJwtPayload_either_alphabet 0 (js "h") (js "eyJhIjoiPz8_In0") (js "s"));
    apply no_dot_check; vm_compute; reflexivity.
Defined.

Lemma extractRolesFromSource_needs_object_witness :
  extractRolesFromSource default_env (VArr 1 [VStr (js "admin")]) = Normal [].
Proof.
  apply extractRolesFromSource_needs_object. intros ref props. discriminate.
Defined.

Lemma fetchViagens_failure_witness :
  exists s',
    fst (run (world_of server_error) (fetchViagens default_env sample_token None Return)
             sample_state) = Normal s'
    /\ viagens s' = [sample_trip]
    /\ error s' = Some (js "Erro ao carregar: 500").
Proof.
  assert (H : nullish_or None sample_token <> []) by (vm_compute; discriminate).
  exact (proj1 (proj2 (fetchViagens_failure default_env (world_of server_error)
                         sample_token None sample_state H))
               server_error eq_refl eq_refl).
Defined.

Lemma fetchViagens_replaces_list_witness :
  exists s',
    run (world_of one_trip) (fetchViagens default_env sample_token None Return) two_trips
    = (Normal s', [Requested (list_request default_env sample_token)])
    /\ viagens s' = [sample_trip] /\ error s' = None /\ loading s' = false.
Proof.
  assert (H : nullish_or None sample_token <> []) by (vm_compute; discriminate).
  exact (fetchViagens_replaces_list default_env (world_of one_trip) sample_token None
           two_trips one_trip 301 [sample_trip] H eq_refl eq_refl eq_refl).
Defined.

Lemma effect_token_failure_witness :
  run token_lost (effect default_env true []) sample_state
  = (Normal (setError (Some token_message) sample_state),
     [Printed (js "Erro ao buscar token:") {| message := js "login_required" |}]).
Proof.
  exact (effect_token_failure default_env token_lost [] sample_state _ eq_refl).
Defined.

Lemma effect_loads_with_fresh_token_witness :
  exists r es,
    run (world_of one_trip) (effect default_env true []) initialState
    = (r, Requested (list_request default_env sample_token) :: es)
    /\ forall s', r = Normal s' -> token s' = sample_token.
Proof.
  apply (proj2 (effect_loads_with_fresh_token default_env (world_of one_trip) []
                  sample_token initialState eq_refl)).
  - reflexivity.
  - vm_compute. discriminate.
Defined.

Lemma handleCreate_success_witness :
  exists req s',
    run (world_of created_trip) (handleCreate default_env filled_form) filled_form
    = (Normal s', [Requested req])
    /\ method req = js "POST"
    /\ authorization req = js "Bearer " ++ token filled_form
    /\ viagens s' = sample_trip :: viagens filled_form
    /\ form_of s' = ([], [], [], [])
    /\ error s' = None
    /\ submitting s' = false
    /\ token s' = token filled_form.
Proof.
  apply (handleCreate_success default_env (world_of created_trip) filled_form filled_form
           created_trip sample_trip);
    try discriminate; try reflexivity.
Defined.

Lemma handleCreate_failure_witness :
  exists s',
    fst (run (world_of server_error) (handleCreate default_env filled_form) filled_form)
    = Normal s'
    /\ error s' = Some (js "Erro ao criar: 500 boom")
    /\ viagens s' = viagens filled_form
    /\ form_of s' = form_of filled_form
    /\ submitting s' = false.
Proof.
  destruct (handleCreate_failure default_env (world_of server_error) filled_form filled_form
              ltac:(discriminate) ltac:(discriminate) ltac:(discriminate))
    as (req & _ & H).
  apply H. right. left. exists server_error, (js "boom"). repeat split.
Defined.

Lemma handleDelete_success_witness :
  exists req s',
    run (world_of no_content) (handleDelete default_env true sample_token trip_id) two_trips
    = (Normal s', [Requested req])
    /\ method req = js "DELETE" /\ url_id req = Some trip_id
    /\ viagens s' = [other_trip]
    /\ deletingId s' = VNull.
Proof.
  destruct (handleDelete_success default_env (world_of no_content) sample_token trip_id
              two_trips no_content (fun _ => eq_refl) eq_refl)
    as (req & s' & E & Hm & Hu & Hv & Hd & _).
  { repeat constructor. }
  exists req, s'. repeat split; assumption.
Defined.

Lemma delete_undoes_create_witness :
  without_id trip_id (sample_trip :: [other_trip]) = Normal [other_trip].
Proof.
  apply delete_undoes_create; [reflexivity | reflexivity |].
  repeat constructor.
Defined.

Lemma null_trip_breaks_page_witness :
  exists s',
    fst (run (world_of null_in_list) (fetchViagens default_env sample_token None Return)
             sample_state) = Normal s'
    /\ viagens s' = [VNull]
    /\ render default_env 0 s' signed_in = Throw TypeError.
Proof.
  assert (H : nullish_or None sample_token <> []) by (vm_compute; discriminate).
  apply (null_trip_breaks_page default_env (world_of null_in_list) sample_token None
           sample_state null_in_list 302 [VNull] VNull 0 signed_in H);
    try reflexivity.
  now left.
Defined.

Lemma render_table_witness :
  exists p,
    render default_env 0 sample_state signed_in = Normal (PageView p)
    /\ counter p = 1%nat
    /\ exists hdr rows,
         listing p = ListTable hdr rows /\ List.length rows = 1%nat.
Proof.
  eexists. split; [vm_compute; reflexivity|].
  match goal with |- counter ?p = _ /\ _ =>
    pose proof (render_table default_env 0 sample_state signed_in p) as H end.
  specialize (H ltac:(vm_compute; reflexivity)).
  destruct H as (Hc & _ & _ & Ht).
  split; [exact Hc|].
  destruct (Ht eq_refl ltac:(discriminate)) as (hdr & rows & El & Hlen & _).
  exists hdr, rows. split; assumption.
Defined.

Lemma first_load_requests_twice_witness :
  exists sys',
    steps default_env just_signed_in
          [RunEffect;
           Settle 0 (TokenSettled (Resolved sample_token));
           RunEffect;
           Settle 1 (TokenSettled (Resolved sample_token))] = Some sys'
    /\ log sys' = [Requested (list_request default_env sample_token);
                   Requested (list_request default_env sample_token)]
    /\ List.length (pending sys') = 2%nat
    /\ token (st sys') = sample_token.
Proof.
  eapply (first_load_requests_twice default_env just_signed_in sample_token).
  - reflexivity.
  - reflexivity.
  - reflexivity.
  - reflexivity.
  - vm_compute. reflexivity.
  - vm_compute. discriminate.
  - vm_compute. discriminate.
Defined.

Lemma sign_out_while_token_is_asked_witness :
  exists sys',
    steps default_env just_signed_in
          [RunEffect; AuthChanged signed_out; RunEffect;
           Settle 0 (TokenSettled (Resolved sample_token))] = Some sys'
    /\ requests (log sys') = requests (log just_signed_in)
    /\ pending sys' = []
    /\ viagens (st sys') = []
    /\ (effect_due sys' = false -> token (st sys') = []).
Proof.
  eapply (sign_out_while_token_is_asked default_env just_signed_in _ signed_out).
  - reflexivity.
  - reflexivity.
  - reflexivity.
  - vm_compute. reflexivity.
  - reflexivity.
Defined.
